(** * FilenFolderShare: the upload, compaction and inventory engine of server.js

    A shallow embedding of [src/server.js].  Paths are JavaScript strings and
    are kept as strings here; the file system is a finite map from absolute
    path to node; asynchronous handlers are state-passing computations that
    also append to a trace of the mutating calls they make. *)

From stdpp Require Import gmap strings list fin_maps sorting.
From Stdlib Require Import Ascii ZArith Lia.
From Stdlib Require DecimalString.
From Equations Require Import Equations.
From Equations.Prop Require Import Logic.

Local Open Scope stdpp_scope.

(** ** JavaScript string operations used by the server *)

Module Str.

Definition slash : ascii := "/"%char.
Definition backslash : ascii := "\"%char.

(** [s.startsWith(p)] *)
Definition startsWith (s p : string) : bool := String.prefix p s.

(** [s.includes('/')] *)
Fixpoint includes_slash (s : string) : bool :=
  match s with
  | "" => false
  | String c s' => if Ascii.eqb c slash then true else includes_slash s'
  end.

(** [s.split('/')]: never empty, [''.split('/')] is [['']]. *)
Fixpoint split (s : string) : list string :=
  match s with
  | "" => [""]
  | String c s' =>
      if Ascii.eqb c slash then "" :: split s'
      else match split s' with
           | seg :: rest => String c seg :: rest
           | [] => [String c ""]
           end
  end.

(** [segs.join('/')] *)
Fixpoint join (segs : list string) : string :=
  match segs with
  | [] => ""
  | [x] => x
  | x :: rest => x +:+ String slash (join rest)
  end.

(** [s.replace(/^([/\\])+/, '')]: drop every leading slash or backslash. *)
Fixpoint strip_leading_slashes (s : string) : string :=
  match s with
  | String c s' =>
      if Ascii.eqb c slash || Ascii.eqb c backslash
      then strip_leading_slashes s' else s
  | "" => ""
  end.

(** [s.substring(n)] *)
Fixpoint drop (n : nat) (s : string) : string :=
  match n, s with
  | S n', String _ s' => drop n' s'
  | _, _ => s
  end.

(** The last character of a string, if any. *)
Fixpoint last_char (s : string) : option ascii :=
  match s with
  | "" => None
  | String c "" => Some c
  | String _ s' => last_char s'
  end.

(** [s.slice(0, -1)]: the string without its last character. *)
Fixpoint chop (s : string) : string :=
  match s with
  | "" => ""
  | String c "" => ""
  | String c s' => String c (chop s')
  end.

(** Decimal rendering of a number inside a template string. *)
Definition of_N (n : N) : string :=
  DecimalString.NilZero.string_of_uint (N.to_uint n).

End Str.

(** ** Node's [path] module, POSIX flavour

    [path.normalize], [path.join] and [path.basename] are Node built-ins.
    They are embedded at the level of path segments, following Node's
    [normalizeString]: empty and [.] segments are dropped, a [..] segment
    removes the previous segment unless there is none or it is itself [..],
    in which case it is kept only for relative paths. *)

Module Path.

(** One step of [normalizeString]; [res] holds the segments kept so far,
    most recent first. *)
Definition norm_step (allowAboveRoot : bool) (res : list string) (seg : string)
  : list string :=
  if decide (seg = "" ∨ seg = ".") then res
  else if decide (seg = "..") then
    match res with
    | top :: below =>
        if decide (top = "..")
        then (if allowAboveRoot then ".." :: res else res)
        else below
    | [] => if allowAboveRoot then [".."] else []
    end
  else seg :: res.

Definition normalizeString (allowAboveRoot : bool) (segs : list string)
  : list string :=
  rev (fold_left (norm_step allowAboveRoot) segs []).

Definition isAbsolute (p : string) : bool := Str.startsWith p "/".

Definition trailingSeparator (p : string) : bool :=
  bool_decide (Str.last_char p = Some Str.slash).

(** [path.normalize(p)] *)
Definition normalize (p : string) : string :=
  if decide (p = "") then "."
  else
    let body := Str.join (normalizeString (negb (isAbsolute p)) (Str.split p)) in
    if decide (body = "") then
      (if isAbsolute p then "/" else if trailingSeparator p then "./" else ".")
    else
      let body := if trailingSeparator p then body +:+ "/" else body in
      if isAbsolute p then "/" +:+ body else body.

(** [path.join(...args)]: non-empty arguments glued with [/], then
    normalized; [.] when nothing is left. *)
Definition join (args : list string) : string :=
  match filter (λ a, a ≠ "") args with
  | [] => "."
  | parts => normalize (Str.join parts)
  end.

(** [path.basename(p)]: the last non-empty segment, [''] if there is none. *)
Definition basename (p : string) : string :=
  match filter (λ s, s ≠ "") (rev (Str.split p)) with
  | seg :: _ => seg
  | [] => ""
  end.

End Path.

(** ** JavaScript numbers

    A [Number] is a binary64 float.  The numbers of the server are file
    sizes and their sums, non-negative integers far below the overflow
    threshold; such a value is kept as the integer it denotes, and every
    arithmetic result is rounded to the nearest value with a 53-bit
    significand, ties to the even one. *)

Module Num.

Definition precision : N := 53.

(** The nearest binary64 value of a non-negative integer. *)
Definition round (n : N) : N :=
  if (n <? 2 ^ precision)%N then n
  else
    let e := (N.log2 n + 1 - precision)%N in
    let q := N.shiftr n e in
    let r := (n - N.shiftl q e)%N in
    let half := (2 ^ (e - 1))%N in
    if (r <? half)%N then N.shiftl q e
    else if (half <? r)%N then N.shiftl (q + 1) e
    else if N.even q then N.shiftl q e
    else N.shiftl (q + 1) e.

(** [a + b] on numbers; [b] may come from the system as an integer. *)
Definition add (a b : N) : N := round (round a + round b).

End Num.

(** ** How a call ends

    A call returns, throws (a promise rejects), or brings the process down:
    an [error] event of a stream no listener is registered for is thrown by
    Node as an uncaught exception, which no [catch] block of the server
    sees and after which nothing more runs. *)

Inductive result (A : Type) : Type :=
| Ok (a : A)
| Throw (message : string)
| Crash (message : string).
Arguments Ok {A} a.
Arguments Throw {A} message.
Arguments Crash {A} message.

(** ** [safeJoin] (server.js, lines 67-74) *)

Definition safeJoin (base target : string) : result string :=
  let normalized := Str.strip_leading_slashes (Path.normalize target) in
  let full := Path.join [base; normalized] in
  if negb (Str.startsWith full base) then Throw "Invalid path"
  else Ok full.

(** ** [getRootName] (server.js, lines 77-81)

    [None] is JavaScript's [null]; the argument is the array of paths. *)

Definition getRootName (paths : list string) : option string :=
  match paths with
  | [] => None
  | first :: _ =>
      match Str.split first with
      | root :: _ :: _ => Some root
      | _ => None
      end
  end.

(** ** The file system and the environment

    The file system maps an absolute, normalized path to the node found
    there.  A directory's children are the keys that extend its path by one
    segment.  An archive is a file whose content records the files packed
    into it and whether the archive was finalized. *)

#[warnings="-register-all"]
Inductive content : Type :=
| Raw (bytes : string)
| Zip (finalized : bool) (entries : list (string * content)).

Inductive fnode : Type :=
| File (c : content)
| Dir.

Abbreviation FS := (gmap string fnode).

(** Mutating calls, in the order they complete. *)
Inductive event : Type :=
| EvMkdir (p : string)
| EvWrite (p : string) (data : string)
| EvArchiveClose (zip folder : string)
| EvArchiveError (zip folder message : string)
| EvRemove (p : string).

Record World : Type := mkWorld { files : FS; trace : list event }.

(** How an archiving run ends: the output stream emits [close]; or the
    archiver emits [error]; or the output stream itself emits [error] (the
    archive file cannot be created or written: ENAMETOOLONG, EISDIR,
    ENOSPC, ...).  In the last two cases [written] entries reached the
    output file ([None]: the output file was never created). *)
Inductive archive_run : Type :=
| Closes
| Errors (message : string) (written : option nat)
| StreamFails (message : string) (written : option nat).

(** What the environment decides: per source folder how archiving ends, and
    per path whether removing or writing it fails, with the error message
    (EACCES, EPERM, ENAMETOOLONG, ENOTDIR for a path that runs through a
    regular file, ...). *)
Record Env : Type := mkEnv {
  archive_of : string → archive_run;
  remove_error : string → option string;
  write_error : string → option string
}.

(** The environment in which nothing fails. *)
Definition calm : Env :=
  {| archive_of := λ _, Closes; remove_error := λ _, None; write_error := λ _, None |}.

Definition is_directory (st : option fnode) : bool :=
  match st with Some Dir => true | _ => false end.

Definition is_file (st : option fnode) : bool :=
  match st with Some (File _) => true | _ => false end.

(** A path that ends in a slash, the root apart: [path.join] and
    [path.normalize] keep one trailing slash, and the system then insists
    on a directory. *)
Definition wants_directory (p : string) : bool :=
  Path.trailingSeparator p && negb (bool_decide (p = "/")).

(** The key of the node a path names: [docs/] names what [docs] names. *)
Definition node_key (p : string) : string :=
  if wants_directory p then Str.chop p else p.

(** What the system finds at a path: the node at its key, or nothing where
    the path ends in a slash and the node is a regular file (ENOTDIR). *)
Definition fs_at (fs : FS) (p : string) : option fnode :=
  match fs !! node_key p with
  | Some (File c) => if wants_directory p then None else Some (File c)
  | found => found
  end.

(** [k] is [p] itself or lies below it. *)
Definition at_or_under (p k : string) : bool :=
  bool_decide (k = p) || Str.startsWith k (p +:+ "/").

Definition fs_remove (p : string) (fs : FS) : FS :=
  filter (λ kv, at_or_under p kv.1 = false) fs.

(** The directories leading to an absolute path, outermost first, the path
    itself last. *)
Fixpoint lineage_from (acc : string) (segs : list string) : list string :=
  match segs with
  | [] => []
  | s :: rest => let p := acc +:+ "/" +:+ s in p :: lineage_from p rest
  end.

Definition lineage (p : string) : list string :=
  match Str.split p with
  | "" :: segs => lineage_from "" segs
  | _ => [p]
  end.

(** [mkdir -p] over a list of paths; fails on meeting a regular file. *)
Fixpoint mkdirs (ps : list string) (fs : FS) : option FS :=
  match ps with
  | [] => Some fs
  | a :: rest =>
      match fs !! a with
      | Some (File _) => None
      | _ => mkdirs rest (<[a := Dir]> fs)
      end
  end.

(** What [archive.directory(folder, false)] packs: every file below
    [folder], under its path relative to [folder]. *)
Definition archive_entry (folder : string) (kv : string * fnode)
  : option (string * content) :=
  match kv.2 with
  | File c =>
      if Str.startsWith kv.1 (folder +:+ "/")
      then Some (Str.drop (String.length folder + 1) kv.1, c)
      else None
  | Dir => None
  end.

Definition archive_entries (folder : string) (fs : FS) : list (string * content) :=
  omap (archive_entry folder) (map_to_list fs).

(** A directory entry as [readdir(..., {withFileTypes: true})] reports it. *)
Record dirent : Type := mkDirent { name : string; isDirectory : bool }.

Definition child_of (dir : string) (kv : string * fnode) : option dirent :=
  if Str.startsWith kv.1 (dir +:+ "/") then
    let n := Str.drop (String.length dir + 1) kv.1 in
    if Str.includes_slash n || bool_decide (n = "") then None
    else Some {| name := n; isDirectory := is_directory (Some kv.2) |}
  else None.

(** [fs.readdir] returns the entries sorted by name. *)
Definition by_name (a b : dirent) : Prop := String.leb (name a) (name b) = true.

#[global] Instance by_name_dec a b : Decision (by_name a b).
Proof. unfold by_name. apply _. Defined.

Definition listing (dir : string) (fs : FS) : list dirent :=
  merge_sort by_name (omap (child_of dir) (map_to_list fs)).

(** ** Computations over the world *)

Definition IO (A : Type) : Type := World → result A * World.

Definition ret {A} (a : A) : IO A := λ w, (Ok a, w).

Definition throw {A} (message : string) : IO A := λ w, (Throw message, w).

Definition crash {A} (message : string) : IO A := λ w, (Crash message, w).

Definition bind {A B} (m : IO A) (k : A → IO B) : IO B :=
  λ w, match m w with
       | (Ok a, w') => k a w'
       | (Throw e, w') => (Throw e, w')
       | (Crash e, w') => (Crash e, w')
       end.

(** [try { m } catch (e) { h e.message }] *)
Definition try_catch {A} (m : IO A) (h : string → IO A) : IO A :=
  λ w, match m w with
       | (Ok a, w') => (Ok a, w')
       | (Throw e, w') => h e w'
       | (Crash e, w') => (Crash e, w')
       end.

Definition lift {A} (r : result A) : IO A :=
  match r with Ok a => ret a | Throw e => throw e | Crash e => crash e end.

Definition log (e : event) : IO unit :=
  λ w, (Ok tt, {| files := files w; trace := trace w ++ [e] |}).

Definition set_files (fs : FS) : IO unit :=
  λ w, (Ok tt, {| files := fs; trace := trace w |}).

Definition get_files : IO FS := λ w, (Ok (files w), w).

Notation "'await' x ← m ; k" := (bind m (λ x, k))
  (at level 10, x name, m at level 100, k at level 200,
   format "'[v' 'await'  x  ←  m ; '/' k ']'").
Notation "m ;; k" := (bind m (λ _, k))
  (at level 100, k at level 200, right associativity).

Section Server.

(** [__dirname] of server.js, and the environment the server runs in. *)
Variable dirname : string.
Variable env : Env.

Definition UPLOADS_DIR : string := Path.join [dirname; "uploads"].

(** *** The fs-extra calls *)

(** [fs.stat(p).catch(() => null)] *)
Definition stat (p : string) : IO (option fnode) :=
  await fs ← get_files; ret (fs_at fs p).

(** [fs.pathExists(p)], [fs.existsSync(p)] *)
Definition pathExists (p : string) : IO bool :=
  await fs ← get_files; ret (bool_decide (is_Some (fs_at fs p))).

(** [fs.remove(p)]: removes what [p] names and everything below it.  A
    path that does not exist is no error; any other failure rejects, among
    them a trailing slash on a regular file. *)
Definition remove (p : string) : IO unit :=
  await fs ← get_files;
  match remove_error env p with
  | Some e => throw e
  | None =>
      if wants_directory p && is_file (fs !! node_key p) then throw "ENOTDIR"
      else set_files (fs_remove (node_key p) fs) ;; log (EvRemove p)
  end.

(** [fs.ensureDir(p)] *)
Definition ensureDir (p : string) : IO unit :=
  await fs ← get_files;
  match write_error env p, mkdirs (lineage (node_key p)) fs with
  | None, Some fs' => set_files fs' ;; log (EvMkdir p)
  | Some e, _ => throw e
  | None, None => throw "EEXIST"
  end.

(** [fs.outputFile(p, data)]: creates the missing directories above [p],
    then writes the file, replacing a file already there.  A target that
    ends in a slash or is a directory is refused by the write, after the
    directories were made. *)
Definition outputFile (p data : string) : IO unit :=
  await fs ← get_files;
  match write_error env p, mkdirs (removelast (lineage (node_key p))) fs with
  | None, Some fs' =>
      if Path.trailingSeparator p then set_files fs' ;; throw "EISDIR"
      else if is_directory (fs' !! p) then throw "EISDIR"
      else set_files (<[p := File (Raw data)]> fs') ;; log (EvWrite p data)
  | Some e, _ => throw e
  | None, None => throw "ENOTDIR"
  end.

(** The promise of lines 33-41 and 142-150: it resolves when the output
    stream closes and rejects when the archiver reports an error.  Nothing
    listens to an [error] of the output stream: it brings the process
    down.  Whatever was written stays at [zipPath]. *)
Definition createArchive (zipPath folder : string) : IO unit :=
  await fs ← get_files;
  let entries := archive_entries (node_key folder) fs in
  let leave written :=
    match written with
    | Some n => set_files (<[zipPath := File (Zip false (take n entries))]> fs)
    | None => ret tt
    end in
  match archive_of env folder with
  | Closes =>
      set_files (<[zipPath := File (Zip true entries)]> fs) ;;
      log (EvArchiveClose zipPath folder)
  | Errors e written =>
      leave written ;; log (EvArchiveError zipPath folder e) ;; throw e
  | StreamFails e written =>
      leave written ;; log (EvArchiveError zipPath folder e) ;; crash e
  end.

(** [fs.readdir(dir, {withFileTypes: true})] *)
Definition readdir (dir : string) : IO (list dirent) :=
  await fs ← get_files;
  if is_directory (fs_at fs dir) then ret (listing (node_key dir) fs)
  else throw "ENOENT".

(** *** [compactDirectory] (server.js, lines 22-47) *)

Inductive outcome : Type :=
| Skipped (dirName reason : string)
| Removed (dirName : string) (zipExisted : bool)
| Compacted (dirName : string)
| Error (dirName message : string).

Definition compactDirectory (dirName : string) : IO outcome :=
  let folderPath := Path.join [UPLOADS_DIR; dirName] in
  let zipPath := Path.join [UPLOADS_DIR; dirName +:+ ".zip"] in
  await st ← stat folderPath;
  if negb (is_directory st) then ret (Skipped dirName "not-directory")
  else
    await zipExists ← pathExists zipPath;
    if zipExists then
      try_catch (remove folderPath ;; ret (Removed dirName true))
                (λ e, ret (Error dirName e))
    else
      try_catch (createArchive zipPath folderPath ;;
                 remove folderPath ;;
                 ret (Compacted dirName))
                (λ e, ret (Error dirName e)).

(** *** [compactAll] (server.js, lines 49-64) *)

Fixpoint sweep (entries : list dirent) (results : list outcome)
  : IO (list outcome) :=
  match entries with
  | [] => ret results
  | ent :: rest =>
      if isDirectory ent then
        if Str.startsWith (name ent) "." then sweep rest results
        else
          let lockPath := Path.join [UPLOADS_DIR; name ent +:+ ".uploading"] in
          await locked ← pathExists lockPath;
          if locked then sweep rest results
          else
            await r ← compactDirectory (name ent);
            sweep rest (results ++ [r])
      else sweep rest results
  end.

Definition compactAll : IO (list outcome) :=
  await entries ← readdir UPLOADS_DIR;
  sweep entries [].

(** *** The upload handler (server.js, lines 87-163) *)

(** One uploaded file as multer's memory storage hands it over. *)
Record upfile : Type := mkUpfile { originalname : string; buffer : string }.

(** [req.body.paths]: absent, one string, or an array of strings. *)
Inductive paths_field : Type :=
| PathsAbsent
| PathsString (p : string)
| PathsArray (ps : list string).

(** [let paths = req.body.paths || []; if (!Array.isArray(paths)) paths = [paths];] *)
Definition paths_of (f : paths_field) : list string :=
  match f with
  | PathsAbsent => []
  | PathsString p => if decide (p = "") then [] else [p]
  | PathsArray ps => ps
  end.

(** JavaScript truthiness of a string or [null]. *)
Definition truthy (v : option string) : bool :=
  match v with
  | Some s => negb (bool_decide (s = ""))
  | None => false
  end.

(** [paths.some(p => typeof p === 'string' && p.includes('/'))] *)
Definition hasNested (paths : list string) : bool :=
  existsb Str.includes_slash paths.

(** [getRootName(paths.filter(Boolean))] *)
Definition rootFromPaths (paths : list string) : option string :=
  getRootName (filter (λ p, p ≠ "") paths).

(** [rootFromPaths || `upload_${Date.now()}`] *)
Definition baseName (paths : list string) (now : N) : string :=
  match rootFromPaths paths with
  | Some r => if decide (r = "") then "upload_" +:+ Str.of_N now else r
  | None => "upload_" +:+ Str.of_N now
  end.

Inductive reply : Type :=
| NoFilesUploaded
| UploadedFiles (names : list string)
| UploadedFolder (folder : string)
| UploadFailed
| Deleted
| InvalidPath.

Record response : Type := mkResponse { status : nat; body : reply }.

(** The loop of lines 105-109: each file goes to the uploads root under
    its base name. *)
Fixpoint write_flat (fs : list upfile) : IO unit :=
  match fs with
  | [] => ret tt
  | f :: rest =>
      let name := Path.basename (originalname f) in
      await destPath ← lift (safeJoin UPLOADS_DIR name);
      outputFile destPath (buffer f) ;;
      write_flat rest
  end.

(** The relative path of file [i] (lines 132-135): its paired path, or its
    original name when that is missing or empty, without the leading
    [root/] when there is one. *)
Definition relative_path (paths : list string) (i : nat) (f : upfile) : string :=
  let rel := match paths !! i with
             | Some p => if decide (p = "") then originalname f else p
             | None => originalname f
             end in
  match rootFromPaths paths with
  | Some r =>
      if negb (bool_decide (r = "")) && Str.startsWith rel (r +:+ "/")
      then Str.drop (String.length r + 1) rel
      else rel
  | None => rel
  end.

(** The loop of lines 129-138, from index [i] on. *)
Fixpoint write_tree (baseDir : string) (paths : list string) (i : nat)
    (fs : list upfile) : IO unit :=
  match fs with
  | [] => ret tt
  | f :: rest =>
      await targetPath ← lift (safeJoin baseDir (relative_path paths i f));
      outputFile targetPath (buffer f) ;;
      write_tree baseDir paths (S i) rest
  end.

(** Lines 123-158: the folder upload. *)
Definition upload_folder (paths : list string) (fs : list upfile) (now : N)
  : IO response :=
  let baseName := baseName paths now in
  let baseDir := Path.join [UPLOADS_DIR; baseName] in
  ensureDir baseDir ;;
  write_tree baseDir paths 0 fs ;;
  let zipPath := Path.join [UPLOADS_DIR; baseName +:+ ".zip"] in
  createArchive zipPath baseDir ;;
  try_catch (remove baseDir) (λ _, ret tt) ;;
  ret {| status := 200; body := UploadedFolder baseName |}.

Definition upload (field : paths_field) (fs : list upfile) (now : N)
  : IO response :=
  try_catch
    (let paths := paths_of field in
     if decide (length fs = 0)
     then ret {| status := 400; body := NoFilesUploaded |}
     else if negb (hasNested paths) && negb (truthy (rootFromPaths paths))
     then
       write_flat fs ;;
       ret {| status := 200;
              body := UploadedFiles (map (λ f, Path.basename (originalname f)) fs) |}
     else upload_folder paths fs now)
    (λ _, ret {| status := 500; body := UploadFailed |}).

(** *** [DELETE /delete/file/:name] (server.js, lines 301-309) *)

Definition deleteFile (name : string) : IO response :=
  try_catch
    (await filePath ← lift (safeJoin UPLOADS_DIR name);
     remove filePath ;;
     ret {| status := 200; body := Deleted |})
    (λ _, ret {| status := 400; body := InvalidPath |}).

End Server.

(** The folder an outcome reports on. *)
Definition outcome_name (o : outcome) : string :=
  match o with
  | Skipped n _ | Removed n _ | Compacted n | Error n _ => n
  end.

(** A stretch of the trace in which nothing is removed. *)
Definition no_removal (evs : list event) : Prop :=
  Forall (λ e, ∀ p, e ≠ EvRemove p) evs.

(** ** [computeFolderSize] (server.js, lines 203-222)

    The traversal only reads.  It sees a tree of directory entries: files
    with the size [fs.stat] reports ([None] when [fs.stat] throws),
    directories with their items in the order [fs.readdir] returns them,
    sorted by name ([readable = false] when [fs.readdir] throws), and
    entries that are neither.  A directory on the work stack stands for its
    path.  The running total is a number: every addition rounds. *)

Module Inventory.

#[warnings="-register-all"]
Inductive entry : Type :=
| FileEnt (size : option N)
| DirEnt (readable : bool) (items : list (string * entry))
| OtherEnt.

(** The early-stop threshold, [1e9]. *)
Definition limit : N := 1000000000.


(** Number of nodes of a tree: the measure of the work left on a stack. *)
Fixpoint weight (e : entry) : nat :=
  match e with
  | DirEnt _ items =>
      S ((fix go (l : list (string * entry)) : nat :=
            match l with
            | [] => 0
            | it :: rest => weight it.2 + go rest
            end) items)
  | _ => 1
  end.

Definition weight_items (l : list (string * entry)) : nat :=
  foldr (λ it n, weight it.2 + n) 0 l.

Definition weight_stack (stack : list entry) : nat :=
  foldr (λ e n, weight e + n) 0 stack.

(** The [for] loop of lines 210-216 inside its [try]: directories are
    pushed, file sizes added; a throwing [fs.stat] abandons the remaining
    items.  The top of the stack is the head of the list. *)
Fixpoint scan (items : list (string * entry)) (stack : list entry) (total : N)
  : list entry * N :=
  match items with
  | [] => (stack, total)
  | (_, it) :: rest =>
      match it with
      | DirEnt _ _ => scan rest (it :: stack) total
      | FileEnt (Some size) => scan rest stack (Num.add total size)
      | FileEnt None => (stack, total)
      | OtherEnt => scan rest stack total
      end
  end.

(** What popping [current] and running the [try] block does. *)
Definition visit (current : entry) (stack : list entry) (total : N)
  : list entry * N :=
  match current with
  | DirEnt true items => scan items stack total
  | _ => (stack, total)
  end.

(** The sum of the sizes of all files of a tree. *)
Fixpoint bytes (e : entry) : N :=
  match e with
  | FileEnt (Some size) => size
  | DirEnt _ items =>
      (fix go (l : list (string * entry)) : N :=
         match l with
         | [] => 0
         | it :: rest => bytes it.2 + go rest
         end) items
  | _ => 0
  end%N.

(** No [fs.readdir] or [fs.stat] throws anywhere in the tree. *)
Fixpoint readable (e : entry) : bool :=
  match e with
  | FileEnt size => bool_decide (is_Some size)
  | DirEnt r items =>
      r && (fix go (l : list (string * entry)) : bool :=
              match l with
              | [] => true
              | it :: rest => readable it.2 && go rest
              end) items
  | OtherEnt => true
  end.

(** The items of every directory of a tree come in [fs.readdir]'s order:
    sorted by name, no name twice. *)
Fixpoint in_order (e : entry) : bool :=
  match e with
  | DirEnt _ items =>
      (fix go (l : list (string * entry)) : bool :=
         match l with
         | [] => true
         | it :: rest =>
             in_order it.2
             && match rest with
                | [] => true
                | next :: _ => String.ltb it.1 next.1
                end
             && go rest
         end) items
  | _ => true
  end.

Definition bytes_items (l : list (string * entry)) : N :=
  foldr (λ it n, bytes it.2 + n)%N 0%N l.

Definition bytes_stack (stack : list entry) : N :=
  foldr (λ e n, bytes e + n)%N 0%N stack.

(** A directory in which everything can be read. *)
Definition readable_dir (e : entry) : Prop :=
  match e with
  | DirEnt _ _ => readable e = true
  | _ => False
  end.

(** The [while (stack.length)] loop: pop, visit, stop once the total
    exceeds the limit. *)
Equations? loop (stack : list entry) (total : N) : N
  by wf (weight_stack stack) lt :=
  loop [] total := total;
  loop (current :: stack) total with inspect (visit current stack total) := {
    | exist _ (pair stack' total') Hvisit =>
        if N.ltb limit total' then total' else loop stack' total' }.
Proof.
  assert (Hscan : ∀ items st t,
             weight_stack (scan items st t).1 ≤ weight_items items + weight_stack st).
  { induction items as [|[n it] items IH]; intros st t; simpl; [lia|].
    destruct it as [[sz|]|r its|]; simpl.
    - specialize (IH st (Num.add t sz)). lia.
    - lia.
    - specialize (IH (DirEnt r its :: st) t). simpl in IH. lia.
    - specialize (IH st t). lia. }
  destruct current as [sz|[|] items|]; simpl in *.
  all: try (inversion Hvisit; subst; lia).
  specialize (Hscan items stack total). rewrite Hvisit in Hscan. simpl in Hscan.
  match goal with
  | |- _ < S (?go items + _) =>
      assert (Hgo : ∀ l, go l = weight_items l)
        by (induction l as [|? ? IHl]; simpl; [|rewrite IHl]; reflexivity);
      rewrite Hgo
  end.
  lia.
Qed.

Definition computeFolderSize (dir : entry) : N := loop [dir] 0.

End Inventory.

(** ** Vocabulary of the statements *)

(** An ordinary name of a directory entry: not empty, not [.] or [..], and
    without a slash. *)
Definition plain (n : string) : Prop :=
  n ≠ "" ∧ n ≠ "." ∧ n ≠ ".." ∧ Str.includes_slash n = false.

(** An absolute path in normal form: a slash followed by ordinary segments
    separated by slashes. *)
Definition abs_normal (p : string) : Prop :=
  ∃ segs, segs ≠ [] ∧ Forall plain segs ∧ p = "/" +:+ Str.join segs.

(** A string that is empty or starts with a slash. *)
Definition boundary (x : string) : Prop := x = "" ∨ ∃ t, x = String Str.slash t.

(** What the archiver leaves at [zipPath] when it breaks off. *)
Definition partial_archive (zipPath folder : string) (written : option nat) (fs : FS)
  : FS :=
  match written with
  | Some n =>
      <[zipPath := File (Zip false (take n (archive_entries (node_key folder) fs)))]> fs
  | None => fs
  end.

(** A computation that never brings the process down. *)
Definition steady {A} (m : IO A) : Prop :=
  ∀ w e w', m w ≠ (Crash e, w').

(** A computation that only appends events which are not removals. *)
Definition quiet {A} (m : IO A) : Prop :=
  ∀ w, ∃ new, trace (m w).2 = trace w ++ new ∧ no_removal new.

(** The events a folder upload appends: no removal at all, or the removal
    of the folder as the last event, right after the close of its
    archive. *)
Definition archive_then_remove (zipPath folder : string) (new : list event) : Prop :=
  no_removal new ∨
  ∃ before, no_removal before ∧
            new = before ++ [EvArchiveClose zipPath folder; EvRemove folder].

(** ** Worlds and environments of the examples *)

(** A world for the examples: the server lives in [/srv/app] and only the
    uploads root exists. *)
Definition fresh_world : World :=
  {| files := {[ "/srv/app/uploads" := Dir ]}; trace := [] |}.

(** An environment in which archiving fails after one entry and no path
    can be removed. *)
Definition flaky : Env :=
  {| archive_of := λ _, Errors "disk full" (Some 1);
     remove_error := λ _, Some "EPERM"; write_error := λ _, None |}.

(** The uploads root holding the folder [docs] with two files. *)
Definition docs_world : World :=
  {| files := {[ "/srv/app/uploads" := Dir;
                 "/srv/app/uploads/docs" := Dir;
                 "/srv/app/uploads/docs/a.txt" := File (Raw "hello");
                 "/srv/app/uploads/docs/b.txt" := File (Raw "world") ]};
     trace := [] |}.

(** A tree of 1.15e9 bytes whose larger half, listed last, is visited
    first, and a flat directory whose first file alone passes the limit. *)
Definition lopsided_tree : Inventory.entry :=
  Inventory.DirEnt true
    [ ("notes", Inventory.DirEnt true [("g.bin", Inventory.FileEnt (Some 100000000%N))]);
      ("video", Inventory.DirEnt true [("f.bin", Inventory.FileEnt (Some 1050000000%N))]) ].

Definition flat_tree : Inventory.entry :=
  Inventory.DirEnt true
    [ ("f.bin", Inventory.FileEnt (Some 2000000000%N));
      ("g.bin", Inventory.FileEnt (Some 5%N)) ].

(** The batch of the specification's scenario. *)
Definition two_files : list upfile :=
  [ {| originalname := "a.txt"; buffer := "hello" |};
    {| originalname := "b.txt"; buffer := "world" |} ].

(** The folder [docs] with its lock marker held, next to an idle folder. *)
Definition locked_world : World :=
  {| files := {[ "/srv/app/uploads" := Dir;
                 "/srv/app/uploads/docs" := Dir;
                 "/srv/app/uploads/docs/a.txt" := File (Raw "hello");
                 "/srv/app/uploads/docs.uploading" := File (Raw "");
                 "/srv/app/uploads/old" := Dir;
                 "/srv/app/uploads/old/c.txt" := File (Raw "bye") ]};
     trace := [] |}.

(** ** The other routes of server.js *)

(** What a route answers: a status with its text, or the file it sends;
    or it answers nothing itself and the request is passed on to Express's
    final handler, which sends its own 404 page. *)
Inductive answer : Type :=
| Sent (status : nat) (text : string)
| Download (filePath : string)
| PassedOn.

Section Routes.

Variable dirname : string.
Variable env : Env.





(** [DELETE /delete/folder/:name] (server.js, lines 312-322) *)
Definition deleteFolder (name : string) : IO answer :=
  try_catch
    (await folderPath ← lift (safeJoin (UPLOADS_DIR dirname) name);
     let zipPath := Path.join [UPLOADS_DIR dirname; name +:+ ".zip"] in
     remove env folderPath ;;
     await zipExists ← pathExists zipPath;
     (if zipExists then remove env zipPath else ret tt) ;;
     ret (Sent 200 "Deleted"))
    (λ _, ret (Sent 400 "Invalid path")).

(** The loop of lines 328-331. *)
Fixpoint purge (names : list string) : IO unit :=
  match names with
  | [] => ret tt
  | name :: rest =>
      let target := Path.join [UPLOADS_DIR dirname; name] in
      remove env target ;;
      purge rest
  end.

(** [DELETE /delete/all] (server.js, lines 325-336) *)
Definition deleteAll : IO answer :=
  try_catch
    (await entries ← readdir (UPLOADS_DIR dirname);
     purge (map name entries) ;;
     ret (Sent 200 "All deleted"))
    (λ _, ret (Sent 500 "Failed to purge")).

End Routes.

(** ** More vocabulary *)

(** A write whose target is a direct child of [root] with an ordinary
    name. *)
Definition child_write (root : string) (e : event) : Prop :=
  ∃ n data, plain n ∧ e = EvWrite (root +:+ "/" +:+ n) data.


(** A write to a path that [safeJoin] returned for the base [baseDir]. *)
Definition write_into (baseDir : string) (e : event) : Prop :=
  ∃ rel p data, safeJoin baseDir rel = Ok p ∧ e = EvWrite p data.

(** The bound up to which every sum of sizes is an exact number. *)
Definition exact_range : N := 2 ^ Num.precision.

(** ** More worlds and environments for the examples *)


(** The environment in which only the limit of 255 bytes on a file name
    bites: the output stream of an archive whose name [<folder>.zip] is
    longer fails when it opens the file. *)
Definition name_limited : Env :=
  {| archive_of := λ folder,
       if 255 <? String.length (Path.basename folder) + 4
       then StreamFails "ENAMETOOLONG" None else Closes;
     remove_error := λ _, None;
     write_error := λ _, None |}.

(** A folder name of 252 characters. *)
Fixpoint letters (n : nat) : string :=
  match n with
  | 0 => ""
  | S n' => String "n"%char (letters n')
  end.

Definition long_name : string := letters 252.

(** The uploads root holding a folder of that name with one file. *)
Definition long_world : World :=
  {| files := {[ "/srv/app/uploads" := Dir;
                 "/srv/app/uploads/" +:+ long_name := Dir;
                 "/srv/app/uploads/" +:+ long_name +:+ "/a.txt" := File (Raw "hello") ]};
     trace := [] |}.


(** The uploads root, empty, next to a folder that is not part of it. *)
Definition outside_world : World :=
  {| files := {[ "/srv/app/uploads" := Dir;
                 "/srv/app/other" := Dir;
                 "/srv/app/other/c.txt" := File (Raw "bye") ]};
     trace := [] |}.

(** Two files of 2^53 and 3 bytes. *)
Definition huge_tree : Inventory.entry :=
  Inventory.DirEnt true
    [ ("f.bin", Inventory.FileEnt (Some 9007199254740992%N));
      ("g.bin", Inventory.FileEnt (Some 3%N)) ].

(** The folder [docs] next to an archive made earlier. *)
Definition archived_world : World :=
  {| files := <["/srv/app/uploads/docs.zip" := File (Zip true [])]> (files docs_world);
     trace := [] |}.

(** A small tree: one file beside a subdirectory with one file and a
    symbolic link. *)
Definition small_tree : Inventory.entry :=
  Inventory.DirEnt true
    [ ("a.txt", Inventory.FileEnt (Some 5%N));
      ("sub", Inventory.DirEnt true
                [ ("b.txt", Inventory.FileEnt (Some 7%N));
                  ("link", Inventory.OtherEnt) ]) ].

(** * Properties *)

(** ** Strings *)

Section StringFacts.

Implicit Types (a b p r s x y : string) (c : ascii).

Lemma sapp_cons c s r : String c s +:+ r = String c (s +:+ r).
Proof. reflexivity. Qed.

Lemma sapp_empty_r s : s +:+ "" = s.
Proof. induction s as [|c s IH]; [reflexivity|]. rewrite sapp_cons, IH. reflexivity. Qed.

Lemma sapp_assoc a b r : (a +:+ b) +:+ r = a +:+ (b +:+ r).
Proof.
  induction a as [|c a IH]; [reflexivity|].
  rewrite !sapp_cons, IH. reflexivity.
Qed.

Lemma sapp_eq_empty a b : a +:+ b = "" → a = "" ∧ b = "".
Proof.
  destruct a; [intros H; change (b = "") in H; done | rewrite sapp_cons; discriminate].
Qed.

Lemma prefix_spec p s : String.prefix p s = true ↔ ∃ r, s = p +:+ r.
Proof.
  revert s. induction p as [|c p IH]; intros s.
  - split; [intros _; exists s; reflexivity|]. intros _. destruct s; reflexivity.
  - destruct s as [|d s]; simpl.
    + split; [discriminate|]. intros [r Hr]. rewrite sapp_cons in Hr. discriminate.
    + destruct (ascii_dec c d) as [->|Hne].
      * rewrite IH. split; intros [r Hr]; exists r.
        -- rewrite sapp_cons. congruence.
        -- rewrite sapp_cons in Hr. congruence.
      * split; [discriminate|]. intros [r Hr]. rewrite sapp_cons in Hr. congruence.
Qed.

Lemma startsWith_app p r : Str.startsWith (p +:+ r) p = true.
Proof. apply prefix_spec. eauto. Qed.

Lemma drop_app p r : Str.drop (String.length p) (p +:+ r) = r.
Proof. induction p as [|c p IH]; [destruct r; reflexivity|]. simpl. apply IH. Qed.

Lemma includes_slash_app a b :
  Str.includes_slash (a +:+ b) = Str.includes_slash a || Str.includes_slash b.
Proof.
  induction a as [|c a IH]; [reflexivity|].
  rewrite sapp_cons. simpl. destruct (Ascii.eqb c Str.slash); [reflexivity | apply IH].
Qed.

Lemma split_nonempty s : Str.split s ≠ [].
Proof.
  destruct s as [|c s]; simpl; [done|].
  destruct (Ascii.eqb c Str.slash); [done|]. destruct (Str.split s); done.
Qed.

Lemma split_no_slash s : Str.includes_slash s = false → Str.split s = [s].
Proof.
  induction s as [|c s IH]; simpl; [done|].
  destruct (Ascii.eqb c Str.slash); [discriminate|]. intros H. rewrite (IH H). reflexivity.
Qed.

Lemma split_app_slash a b :
  Str.split (a +:+ String Str.slash b) = Str.split a ++ Str.split b.
Proof.
  induction a as [|c a IH]; [reflexivity|].
  rewrite sapp_cons. simpl. destruct (Ascii.eqb c Str.slash).
  - rewrite IH. reflexivity.
  - rewrite IH. pose proof (split_nonempty a) as Hne.
    destruct (Str.split a); [done | reflexivity].
Qed.


(** The first segment of a path is determined by the path. *)
Lemma segment_cut a b x y :
  Str.includes_slash a = false → Str.includes_slash b = false →
  boundary x → boundary y →
  a +:+ x = b +:+ y → a = b ∧ x = y.
Proof.
  revert b. induction a as [|c a IH]; intros b Ha Hb Hx Hy Heq.
  - destruct b as [|d b]; [done|]. rewrite sapp_cons in Heq. simpl in Heq, Hb.
    destruct Hx as [->|[t ->]]; [discriminate|].
    injection Heq as <- _. simpl in Hb. discriminate.
  - simpl in Ha. destruct (Ascii.eqb c Str.slash) eqn:Hc; [discriminate|].
    destruct b as [|d b].
    + rewrite sapp_cons in Heq. simpl in Heq.
      destruct Hy as [->|[t ->]]; [discriminate|].
      injection Heq as -> _. simpl in Hc. discriminate.
    + rewrite !sapp_cons in Heq. injection Heq as -> Heq.
      simpl in Hb. rewrite Hc in Hb.
      destruct (IH b Ha Hb Hx Hy Heq) as [-> ->]. done.
Qed.

Lemma last_char_app a b : b ≠ "" → Str.last_char (a +:+ b) = Str.last_char b.
Proof.
  intros Hb. induction a as [|c a IH]; [reflexivity|].
  rewrite sapp_cons. simpl. rewrite IH.
  destruct (a +:+ b) eqn:E; [|reflexivity].
  apply sapp_eq_empty in E as [_ ->]. done.
Qed.

Lemma last_char_no_slash s :
  Str.includes_slash s = false → Str.last_char s ≠ Some Str.slash.
Proof.
  induction s as [|c s IH]; simpl; [done|].
  destruct (Ascii.eqb c Str.slash) eqn:Hc; [discriminate|]. intros Hs.
  destruct s as [|d s]; [|exact (IH Hs)].
  intros [= ->]. simpl in Hc. discriminate.
Qed.

Lemma join_snoc (segs : list string) s :
  segs ≠ [] → Str.join (segs ++ [s]) = Str.join segs +:+ String Str.slash s.
Proof.
  induction segs as [|x segs IH]; [done|]. intros _.
  destruct segs as [|z segs]; [reflexivity|].
  change (Str.join ((x :: z :: segs) ++ [s]))
    with (x +:+ String Str.slash (Str.join ((z :: segs) ++ [s]))).
  rewrite IH by done.
  change (Str.join (x :: z :: segs)) with (x +:+ String Str.slash (Str.join (z :: segs))).
  rewrite sapp_assoc, sapp_cons. reflexivity.
Qed.

Lemma split_join (segs : list string) :
  segs ≠ [] → Forall (λ s, Str.includes_slash s = false) segs →
  Str.split (Str.join segs) = segs.
Proof.
  induction segs as [|x segs IH]; [done|]. intros _ Hall.
  apply Forall_cons in Hall as [Hx Hall].
  destruct segs as [|z segs]; [exact (split_no_slash _ Hx)|].
  change (Str.join (x :: z :: segs)) with (x +:+ String Str.slash (Str.join (z :: segs))).
  rewrite split_app_slash, IH, split_no_slash by done. reflexivity.
Qed.

End StringFacts.

(** ** Paths *)

Section PathFacts.

Implicit Types (p n s : string) (segs res : list string).

Lemma split_slash_free p : Forall (λ s, Str.includes_slash s = false) (Str.split p).
Proof.
  induction p as [|c p IH]; simpl; [repeat constructor|].
  destruct (Ascii.eqb c Str.slash) eqn:Hc; [constructor; done|].
  destruct (Str.split p) as [|seg rest]; [repeat constructor; simpl; by rewrite Hc|].
  apply Forall_cons in IH as [Hseg Hrest].
  constructor; [simpl; by rewrite Hc | done].
Qed.

Lemma norm_step_plain b res s : plain s → Path.norm_step b res s = s :: res.
Proof.
  intros (H1 & H2 & H3 & _). unfold Path.norm_step.
  destruct (decide (s = "" ∨ s = ".")) as [[?|?]|_]; [done..|].
  destruct (decide (s = "..")); done.
Qed.

Lemma fold_norm_plain b segs res :
  Forall plain segs → fold_left (Path.norm_step b) segs res = rev segs ++ res.
Proof.
  revert res. induction segs as [|s segs IH]; intros res Hall; [reflexivity|].
  apply Forall_cons in Hall as [Hs Hall]. simpl.
  rewrite norm_step_plain, IH by done. by rewrite <- app_assoc.
Qed.

Lemma norm_step_keeps_plain res s :
  Str.includes_slash s = false → Forall plain res →
  Forall plain (Path.norm_step false res s).
Proof.
  intros Hs Hres. unfold Path.norm_step.
  destruct (decide (s = "" ∨ s = ".")) as [_|Hn]; [done|].
  destruct (decide (s = "..")) as [_|Hdd].
  - destruct res as [|top below]; [done|].
    destruct (decide (top = "..")); [done|]. by apply Forall_cons in Hres as [_ ?].
  - constructor; [|done]. repeat split; [naive_solver..|done].
Qed.

Lemma fold_norm_keeps_plain segs res :
  Forall (λ s, Str.includes_slash s = false) segs → Forall plain res →
  Forall plain (fold_left (Path.norm_step false) segs res).
Proof.
  revert res. induction segs as [|s segs IH]; intros res Hsegs Hres; [done|].
  apply Forall_cons in Hsegs as [Hs Hsegs]. simpl.
  apply IH; [done|]. by apply norm_step_keeps_plain.
Qed.

Lemma join_not_empty segs :
  segs ≠ [] → Forall (λ s, s ≠ "") segs → Str.join segs ≠ "".
Proof.
  destruct segs as [|x [|z segs]]; [done| |].
  - intros _ Hall. by apply Forall_cons in Hall as [? _].
  - intros _ _. change (Str.join (x :: z :: segs))
      with (x +:+ String Str.slash (Str.join (z :: segs))).
    intros [_ ?]%sapp_eq_empty. done.
Qed.

Lemma plain_not_empty segs : Forall plain segs → Forall (λ s, s ≠ "") segs.
Proof. intros H. eapply Forall_impl; [exact H|]. by intros ? [? _]. Qed.

Lemma plain_slash_free segs :
  Forall plain segs → Forall (λ s, Str.includes_slash s = false) segs.
Proof. intros H. eapply Forall_impl; [exact H|]. by intros ? (_ & _ & _ & ?). Qed.

(** Normalizing an absolute path that does not end in a slash. *)
Lemma normalize_absolute p segs :
  Path.isAbsolute p = true → Path.trailingSeparator p = false →
  Path.normalizeString false (Str.split p) = segs →
  segs ≠ [] → Forall plain segs →
  Path.normalize p = "/" +:+ Str.join segs.
Proof.
  intros Habs Htr Hsegs Hne Hall. unfold Path.normalize.
  destruct (decide (p = "")) as [->|_]; [discriminate|].
  rewrite Habs, Htr. simpl. rewrite Hsegs.
  destruct (decide (Str.join segs = "")) as [He|_]; [|reflexivity].
  by apply join_not_empty in He; [|done|apply plain_not_empty].
Qed.

Lemma isAbsolute_spec p : Path.isAbsolute p = true ↔ ∃ r, p = "/" +:+ r.
Proof. apply prefix_spec. Qed.

(** Joining an ordinary name onto a normalized absolute path appends it. *)
Lemma join_plain p n :
  abs_normal p → plain n → Path.join [p; n] = p +:+ "/" +:+ n.
Proof.
  intros (segs & Hne & Hall & ->) Hn.
  assert (Hn' := Hn). destruct Hn' as (Hn1 & _ & _ & Hn4).
  unfold Path.join.
  rewrite !filter_cons_True, filter_nil by (done || by intros ?%sapp_eq_empty).
  change (Str.join ["/" +:+ Str.join segs; n])
    with (("/" +:+ Str.join segs) +:+ String Str.slash n).
  rewrite (normalize_absolute _ (segs ++ [n])).
  - rewrite join_snoc by done. by rewrite sapp_assoc.
  - apply isAbsolute_spec. eexists. by rewrite sapp_assoc.
  - unfold Path.trailingSeparator. apply bool_decide_eq_false.
    change (String Str.slash n) with ("/" +:+ n). rewrite <- sapp_assoc.
    rewrite last_char_app by done. by apply last_char_no_slash.
  - rewrite split_app_slash. change ("/" +:+ Str.join segs) with (String Str.slash (Str.join segs)).
    change (Str.split (String Str.slash (Str.join segs)))
      with ("" :: Str.split (Str.join segs)).
    rewrite split_join by (done || by apply plain_slash_free).
    rewrite split_no_slash by done.
    unfold Path.normalizeString. simpl.
    rewrite fold_norm_plain by (apply Forall_app; split; [done | by constructor]).
    rewrite app_nil_r. apply rev_involutive.
  - by destruct segs.
  - apply Forall_app. split; [done | by constructor].
Qed.


End PathFacts.

(** ** The uploads root and the paths built from it *)

Section Layout.

Variable dirname : string.
Hypothesis dirname_absolute : Path.isAbsolute dirname = true.

Local Abbreviation U := (UPLOADS_DIR dirname).

Lemma plain_uploads : plain "uploads".
Proof. repeat split; done. Qed.

Lemma UPLOADS_DIR_normal : abs_normal U.
Proof.
  destruct (proj1 (isAbsolute_spec _) dirname_absolute) as [r Hr].
  set (acc := fold_left (Path.norm_step false) (Str.split dirname) []).
  assert (Hacc : Forall plain acc)
    by (apply fold_norm_keeps_plain; [apply split_slash_free | constructor]).
  exists (rev acc ++ ["uploads"]).
  split; [by destruct (rev acc)|].
  assert (Hall : Forall plain (rev acc ++ ["uploads"])).
  { apply Forall_app. split; [by apply Forall_rev|].
    constructor; [apply plain_uploads | constructor]. }
  split; [done|].
  unfold UPLOADS_DIR, Path.join.
  rewrite !filter_cons_True, filter_nil by (done || (rewrite Hr; done)).
  change (Str.join [dirname; "uploads"]) with (dirname +:+ String Str.slash "uploads").
  apply normalize_absolute; [| | |by destruct (rev acc)|done].
  - apply isAbsolute_spec. exists (r +:+ String Str.slash "uploads").
    rewrite Hr. by rewrite sapp_assoc.
  - unfold Path.trailingSeparator. apply bool_decide_eq_false.
    by rewrite last_char_app.
  - rewrite split_app_slash. unfold Path.normalizeString.
    rewrite fold_left_app. fold acc.
    change (Str.split "uploads") with ["uploads"]. cbn [fold_left].
    by rewrite norm_step_plain by apply plain_uploads.
Qed.

Lemma child_path n : plain n → Path.join [U; n] = U +:+ "/" +:+ n.
Proof. apply join_plain, UPLOADS_DIR_normal. Qed.

End Layout.

Lemma plain_suffix n suffix :
  Str.includes_slash n = false → Str.includes_slash suffix = false →
  3 ≤ String.length suffix → plain (n +:+ suffix).
Proof.
  intros Hn Hs Hlen.
  assert (Hl : ∀ a b, String.length (a +:+ b) = String.length a + String.length b).
  { induction a as [|c a IH]; intros b; [reflexivity|]. rewrite sapp_cons. simpl. by rewrite IH. }
  assert (3 ≤ String.length (n +:+ suffix)) by (rewrite Hl; lia).
  repeat split.
  - intros E. rewrite E in *. simpl in *. lia.
  - intros E. rewrite E in *. simpl in *. lia.
  - intros E. rewrite E in *. simpl in *. lia.
  - rewrite includes_slash_app, Hn, Hs. done.
Qed.

(** ** The file system *)

Section FileSystem.

Implicit Types (fs : FS) (p k : string).

Lemma at_or_under_spec p k :
  at_or_under p k = true ↔ ∃ x, boundary x ∧ k = p +:+ x.
Proof.
  unfold at_or_under. rewrite orb_true_iff, bool_decide_eq_true.
  unfold Str.startsWith. rewrite prefix_spec. split.
  - intros [->|[r ->]].
    + exists "". split; [by left | by rewrite sapp_empty_r].
    + exists ("/" +:+ r). split; [right; by exists r | by rewrite sapp_assoc].
  - intros (x & [->|[t ->]] & ->).
    + left. by rewrite sapp_empty_r.
    + right. exists t. by rewrite sapp_assoc.
Qed.

Lemma at_or_under_self p : at_or_under p p = true.
Proof. unfold at_or_under. by rewrite bool_decide_eq_true_2. Qed.

Lemma fs_remove_lookup p fs k :
  fs_remove p fs !! k = if at_or_under p k then None else fs !! k.
Proof.
  unfold fs_remove. destruct (at_or_under p k) eqn:E.
  - apply map_lookup_filter_None. right. intros v _. simpl. by rewrite E.
  - destruct (fs !! k) as [v|] eqn:Hk.
    + apply map_lookup_filter_Some. done.
    + apply map_lookup_filter_None. by left.
Qed.


(** Sorting does not change what is listed. *)
Lemma elem_of_listing dir fs ent :
  ent ∈ listing dir fs ↔ ent ∈ omap (child_of dir) (map_to_list fs).
Proof. unfold listing. by rewrite merge_sort_Permutation. Qed.

Lemma listing_empty dir fs :
  listing dir fs = [] ↔ omap (child_of dir) (map_to_list fs) = [].
Proof.
  unfold listing. split; intros H.
  - apply Permutation_nil_r. rewrite <- H. by rewrite merge_sort_Permutation.
  - apply Permutation_nil_r. by rewrite merge_sort_Permutation, H.
Qed.

Lemma listing_names dir fs ent :
  ent ∈ listing dir fs →
  name ent ≠ "" ∧ Str.includes_slash (name ent) = false ∧
  ∃ nd, fs !! (dir +:+ "/" +:+ name ent) = Some nd ∧
        isDirectory ent = is_directory (Some nd).
Proof.
  rewrite elem_of_listing, list_elem_of_omap. intros ([k nd] & Hin & Hc).
  apply elem_of_map_to_list in Hin. unfold child_of in Hc. simpl in Hc.
  destruct (Str.startsWith k (dir +:+ "/")) eqn:Hp; [|discriminate].
  apply prefix_spec in Hp as [r ->]. rewrite sapp_assoc in Hc, Hin.
  replace (String.length dir + 1) with (String.length (dir +:+ "/")) in Hc; last first.
  { clear. induction dir as [|c d IH]; [reflexivity|]. rewrite sapp_cons. simpl. by rewrite IH. }
  rewrite <- sapp_assoc, drop_app in Hc.
  destruct (Str.includes_slash r) eqn:Hs; [discriminate|].
  destruct (bool_decide (r = "")) eqn:He; [discriminate|]. simpl in Hc.
  injection Hc as <-. simpl. apply bool_decide_eq_false in He.
  repeat split; [done..|]. by exists nd.
Qed.

End FileSystem.

(** ** Paths that end in a slash *)

Section Resolution.

Implicit Types (fs : FS) (p k x : string).

Lemma wants_directory_trailing p :
  Path.trailingSeparator p = false → wants_directory p = false.
Proof. unfold wants_directory. by intros ->. Qed.

Lemma node_key_settled p : wants_directory p = false → node_key p = p.
Proof. unfold node_key. by intros ->. Qed.

Lemma fs_at_settled fs p : wants_directory p = false → fs_at fs p = fs !! p.
Proof.
  intros Hp. unfold fs_at. rewrite node_key_settled, Hp by done.
  by destruct (fs !! p) as [[c|]|].
Qed.

(** What is found at a path sits at its key. *)
Lemma fs_at_key fs p nd : fs_at fs p = Some nd → fs !! node_key p = Some nd.
Proof.
  unfold fs_at. destruct (fs !! node_key p) as [[c|]|]; [|done..].
  by destruct (wants_directory p).
Qed.

Lemma fs_at_missing fs p : fs !! node_key p = None → fs_at fs p = None.
Proof. unfold fs_at. by intros ->. Qed.

Lemma is_directory_fs_at fs p :
  is_directory (fs_at fs p) = is_directory (fs !! node_key p).
Proof.
  unfold fs_at. destruct (fs !! node_key p) as [[c|]|]; [|done..].
  by destruct (wants_directory p).
Qed.

Lemma chop_snoc s c : Str.chop (s +:+ String c "") = s.
Proof.
  induction s as [|d s IH]; [reflexivity|].
  rewrite sapp_cons. simpl. rewrite IH.
  destruct (s +:+ String c "") eqn:E; [|reflexivity].
  by apply sapp_eq_empty in E as [_ ?].
Qed.

Lemma last_char_snoc s c : Str.last_char s = Some c → s = Str.chop s +:+ String c "".
Proof.
  induction s as [|d s IH]; [done|]. simpl.
  destruct s as [|d' s]; [by intros [= ->]|].
  intros H. rewrite sapp_cons. f_equal. by apply IH.
Qed.

(** A path names something at or below the node it resolves to. *)
Lemma at_or_under_key p k :
  at_or_under p k = true → at_or_under (node_key p) k = true.
Proof.
  unfold node_key, wants_directory.
  destruct (Path.trailingSeparator p) eqn:Ht; [|done].
  destruct (bool_decide (p = "/")); [done|]. cbn [negb andb].
  apply bool_decide_eq_true, last_char_snoc in Ht.
  intros (x & Hx & ->)%at_or_under_spec. apply at_or_under_spec.
  exists ("/" +:+ x). split; [right; by eexists|].
  set (q := Str.chop p) in *. clearbody q. subst p. by rewrite sapp_assoc.
Qed.

Lemma fold_norm_kept b segs res :
  Forall (λ s, Str.includes_slash s = false) segs →
  Forall (λ s, s ≠ "" ∧ Str.includes_slash s = false) res →
  Forall (λ s, s ≠ "" ∧ Str.includes_slash s = false)
         (fold_left (Path.norm_step b) segs res).
Proof.
  intros Hsegs. revert res. induction Hsegs as [|seg segs Hseg Hsegs IH]; intros res Hres;
    [done|]. cbn [fold_left]. apply IH. unfold Path.norm_step.
  destruct (decide (seg = "" ∨ seg = ".")) as [|Hn]; [done|].
  destruct (decide (seg = "..")) as [->|].
  - destruct res as [|top below].
    + destruct b; [by repeat constructor | done].
    + destruct (decide (top = "..")).
      * destruct b; [by constructor | done].
      * by apply Forall_cons in Hres as [_ ?].
  - constructor; [|done]. split; [|done]. intros ->. apply Hn. by left.
Qed.

Lemma last_char_join_segments (segs : list string) :
  segs ≠ [] → Forall (λ s, s ≠ "" ∧ Str.includes_slash s = false) segs →
  Str.last_char (Str.join segs) ≠ Some Str.slash.
Proof.
  induction segs as [|x segs IH]; [done|]. intros _ Hall.
  apply Forall_cons in Hall as [[Hx Hxs] Hall].
  destruct segs as [|y segs]; [by apply last_char_no_slash|].
  change (Str.join (x :: y :: segs)) with (x +:+ String Str.slash (Str.join (y :: segs))).
  rewrite last_char_app by done.
  assert (Hj : Str.join (y :: segs) ≠ "").
  { apply join_not_empty; [done|]. eapply Forall_impl; [exact Hall|]. by intros ? [? _]. }
  change (Str.last_char (String Str.slash (Str.join (y :: segs))))
    with (match Str.join (y :: segs) with
          | "" => Some Str.slash
          | _ => Str.last_char (Str.join (y :: segs))
          end).
  destruct (Str.join (y :: segs)) eqn:E; [done|]. by apply IH.
Qed.

(** [path.normalize] adds no trailing slash: a path without one normalizes
    to the root or to a path without one. *)
Lemma normalize_settled p :
  Path.trailingSeparator p = false → wants_directory (Path.normalize p) = false.
Proof.
  intros Ht. unfold Path.normalize.
  destruct (decide (p = "")); [reflexivity|]. rewrite Ht.
  set (segs := Path.normalizeString (negb (Path.isAbsolute p)) (Str.split p)).
  assert (Hsegs : Forall (λ s, s ≠ "" ∧ Str.includes_slash s = false) segs).
  { unfold segs, Path.normalizeString. apply Forall_rev, fold_norm_kept;
      [apply split_slash_free | constructor]. }
  destruct (decide (Str.join segs = "")) as [He|He].
  { by destruct (Path.isAbsolute p). }
  assert (Hne : segs ≠ []) by (intros E; by rewrite E in He).
  pose proof (last_char_join_segments segs Hne Hsegs) as Hl.
  apply wants_directory_trailing. unfold Path.trailingSeparator.
  apply bool_decide_eq_false.
  destruct (Path.isAbsolute p); [|done]. by rewrite last_char_app.
Qed.

(** Joining a name that does not end in a slash gives a path that does not
    end in one. *)
Lemma join_settled base x :
  x ≠ "" → Str.last_char x ≠ Some Str.slash →
  wants_directory (Path.join [base; x]) = false.
Proof.
  intros Hx Hl. unfold Path.join.
  destruct (decide (base = "")) as [->|Hb].
  - rewrite filter_cons_False, filter_cons_True, filter_nil by (by intros ? || done).
    apply normalize_settled. unfold Path.trailingSeparator.
    by apply bool_decide_eq_false.
  - rewrite !filter_cons_True, filter_nil by done.
    apply normalize_settled. unfold Path.trailingSeparator.
    apply bool_decide_eq_false.
    change (Str.join [base; x]) with (base +:+ String Str.slash x).
    change (String Str.slash x) with ("/" +:+ x). rewrite <- sapp_assoc.
    by rewrite last_char_app.
Qed.

Lemma join_suffix_settled base d suffix :
  suffix ≠ "" → Str.includes_slash suffix = false →
  wants_directory (Path.join [base; d +:+ suffix]) = false.
Proof.
  intros Hne Hs. apply join_settled.
  - by intros [_ ?]%sapp_eq_empty.
  - rewrite last_char_app by done. by apply last_char_no_slash.
Qed.

Lemma join_slash_free_settled base n :
  n ≠ "" → Str.includes_slash n = false →
  wants_directory (Path.join [base; n]) = false.
Proof. intros Hne Hs. apply join_settled; [done | by apply last_char_no_slash]. Qed.

Lemma abs_normal_settled p : abs_normal p → wants_directory p = false.
Proof.
  intros (segs & Hne & Hall & ->). apply wants_directory_trailing.
  unfold Path.trailingSeparator. apply bool_decide_eq_false.
  assert (Hj : Str.join segs ≠ "")
    by (apply join_not_empty; [done | by apply plain_not_empty]).
  rewrite last_char_app by done.
  apply last_char_join_segments; [done|].
  eapply Forall_impl; [exact Hall|]. by intros ? (? & _ & _ & ?).
Qed.

Lemma child_settled base n : plain n → wants_directory (base +:+ "/" +:+ n) = false.
Proof.
  intros (Hne & _ & _ & Hs). apply wants_directory_trailing.
  unfold Path.trailingSeparator. apply bool_decide_eq_false.
  rewrite <- sapp_assoc, last_char_app by done. by apply last_char_no_slash.
Qed.

(** The uploads root never ends in a slash, whatever [__dirname] is. *)
Lemma UPLOADS_DIR_settled dirname : wants_directory (UPLOADS_DIR dirname) = false.
Proof. unfold UPLOADS_DIR. by apply join_slash_free_settled. Qed.

End Resolution.

Local Arguments Path.join : simpl never.
Local Arguments Path.normalize : simpl never.
Local Arguments UPLOADS_DIR : simpl never.

(** Unfold the plumbing of a computation, one layer of calls at a time. *)
Ltac io_unfold :=
  cbv [bind ret throw crash try_catch lift log set_files get_files
       stat pathExists remove ensureDir outputFile createArchive readdir];
  cbn [files trace fst snd].

(** ** [safeJoin] *)

(** Whatever [safeJoin] returns has the base as a string prefix: this is all
    the check of line 70 establishes. *)
Lemma safeJoin_prefix base target full :
  safeJoin base target = Ok full → ∃ rest, full = base +:+ rest.
Proof.
  unfold safeJoin. destruct (Str.startsWith _ base) eqn:E; [|discriminate].
  intros [= <-]. by apply prefix_spec.
Qed.

(** C1.  [safeJoin] lets a path leave the root: with the root
    [/srv/app/uploads], the relative path [../uploads_old/secret.txt] is
    accepted and resolves to [/srv/app/uploads_old/secret.txt], which is
    neither the root nor below it: it lies in a sibling of the root whose
    name merely starts with the root's name.  For [.] the root itself is
    returned, which is not a strict descendant either. *)
Theorem safeJoin_escapes_to_sibling :
  UPLOADS_DIR "/srv/app" = "/srv/app/uploads" ∧
  safeJoin (UPLOADS_DIR "/srv/app") "../uploads_old/secret.txt"
    = Ok "/srv/app/uploads_old/secret.txt" ∧
  at_or_under (UPLOADS_DIR "/srv/app") "/srv/app/uploads_old/secret.txt" = false ∧
  safeJoin (UPLOADS_DIR "/srv/app") "." = Ok (UPLOADS_DIR "/srv/app").
Proof. repeat split; vm_compute; reflexivity. Qed.

(** The scenario of the specification: a path that climbs out of the root
    by [..] alone is refused, and an absolute path is taken as relative. *)
Example safeJoin_refuses_climbing :
  safeJoin (UPLOADS_DIR "/srv/app") "../../etc/passwd" = Throw "Invalid path" ∧
  safeJoin (UPLOADS_DIR "/srv/app") "/etc/passwd" = Ok "/srv/app/uploads/etc/passwd" ∧
  safeJoin (UPLOADS_DIR "/srv/app") "sub/../b.txt" = Ok "/srv/app/uploads/b.txt".
Proof. repeat split; vm_compute; reflexivity. Qed.

Example normalize_examples :
  Path.normalize "../../etc/passwd" = "../../etc/passwd" ∧
  Path.normalize "/a/./b//../c/" = "/a/c/" ∧
  Path.normalize "a/.." = "." ∧
  Path.normalize "/.." = "/" ∧
  Path.join ["/srv/app"; "uploads"] = "/srv/app/uploads" ∧
  Path.join ["/srv/app/uploads"; "../../etc/passwd"] = "/srv/etc/passwd" ∧
  Path.basename "a/b//" = "b" ∧
  Path.basename "/" = "".
Proof. repeat split; vm_compute; reflexivity. Qed.

(** ** [compactDirectory] *)

(** The test of line 26: when [path.join(UPLOADS_DIR, dirName)] does not
    resolve to a directory, the call ends there. *)
Lemma compactDirectory_skips dirname env dirName w :
  is_directory (fs_at (files w) (Path.join [UPLOADS_DIR dirname; dirName])) = false →
  compactDirectory dirname env dirName w = (Ok (Skipped dirName "not-directory"), w).
Proof.
  intros H. unfold compactDirectory. io_unfold. rewrite H. reflexivity.
Qed.

Lemma compactDirectory_skips_name dirname env dirName w :
  Path.isAbsolute dirname = true → plain dirName →
  is_directory (files w !! (UPLOADS_DIR dirname +:+ "/" +:+ dirName)) = false →
  compactDirectory dirname env dirName w = (Ok (Skipped dirName "not-directory"), w).
Proof.
  intros Habs Hd H. apply compactDirectory_skips.
  rewrite child_path by done. by rewrite fs_at_settled by by apply child_settled.
Qed.

(** C10.  Called with an ordinary name, the name of a directory entry,
    that is not an existing directory in the uploads root,
    [compactDirectory] returns [skipped] with reason [not-directory] and
    leaves the world, files and trace, as it was, in every environment.
    For any string at all, the same holds whenever the joined path does not
    resolve to a directory. *)
Theorem compactDirectory_not_directory dirname env dirName w :
  (Path.isAbsolute dirname = true → plain dirName →
   is_directory (files w !! (UPLOADS_DIR dirname +:+ "/" +:+ dirName)) = false →
   compactDirectory dirname env dirName w
     = (Ok (Skipped dirName "not-directory"), w)) ∧
  (is_directory (fs_at (files w) (Path.join [UPLOADS_DIR dirname; dirName])) = false →
   compactDirectory dirname env dirName w
     = (Ok (Skipped dirName "not-directory"), w)).
Proof.
  split; [apply compactDirectory_skips_name | apply compactDirectory_skips].
Qed.

Lemma compactDirectory_not_directory_witness :
  compactDirectory "/srv/app" flaky "ghost" docs_world
    = (Ok (Skipped "ghost" "not-directory"), docs_world) ∧
  compactDirectory "/srv/app" flaky "docs/a.txt/" docs_world
    = (Ok (Skipped "docs/a.txt/" "not-directory"), docs_world).
Proof.
  split.
  - apply (proj1 (compactDirectory_not_directory "/srv/app" flaky "ghost" docs_world));
      [reflexivity | repeat split; done | vm_compute; reflexivity].
  - apply (proj2 (compactDirectory_not_directory "/srv/app" flaky "docs/a.txt/" docs_world)).
    vm_compute. reflexivity.
Defined.

(** C10, as stated, fails for a string that is not an entry name: nothing
    named [../other] exists under the uploads root, which is empty, yet
    the joined path is the directory [/srv/app/other] beside the root, and
    the call archives that directory into [/srv/app/other.zip] and removes
    it. *)
Lemma compactDirectory_outside_root :
  ∃ w',
    (∀ k, at_or_under (UPLOADS_DIR "/srv/app") k = true →
          k ≠ UPLOADS_DIR "/srv/app" → files outside_world !! k = None) ∧
    Path.join [UPLOADS_DIR "/srv/app"; "../other"] = "/srv/app/other" ∧
    compactDirectory "/srv/app" calm "../other" outside_world
      = (Ok (Compacted "../other"), w') ∧
    files w' !! "/srv/app/other" = None ∧
    files w' !! "/srv/app/other/c.txt" = None ∧
    files w' !! "/srv/app/other.zip" = Some (File (Zip true [("c.txt", Raw "bye")])).
Proof.
  eexists. split; [|repeat split; vm_compute; reflexivity].
  intros k (x & Hx & ->)%at_or_under_spec Hne.
  destruct Hx as [->|[t ->]]; [by rewrite sapp_empty_r in Hne|].
  change (UPLOADS_DIR "/srv/app") with "/srv/app/uploads". unfold outside_world, files.
  rewrite !lookup_insert_ne by (intros E; vm_compute in E; discriminate).
  apply lookup_singleton_ne. intros E. vm_compute in E. discriminate.
Qed.

(** A name that ends in a slash names the folder: for [docs/] the test of
    line 26 finds the directory [docs], and the folder is compacted. *)
Example compactDirectory_trailing_slash :
  ∃ w', compactDirectory "/srv/app" calm "docs/" docs_world
          = (Ok (Compacted "docs/"), w') ∧
        files w' !! "/srv/app/uploads/docs" = None ∧
        files w' !! "/srv/app/uploads/docs/a.txt" = None.
Proof. eexists. repeat split; vm_compute; reflexivity. Qed.

(** ** The calls of fs-extra and the archiver *)

Section Calls.

Variable env : Env.

(** How [fs.remove] ends. *)
Lemma remove_cases p w :
  (remove env p w
     = (Ok tt, {| files := fs_remove (node_key p) (files w);
                  trace := trace w ++ [EvRemove p] |}) ∧
   remove_error env p = None) ∨
  (∃ e, remove env p w = (Throw e, w) ∧
        (remove_error env p = Some e ∨
         (remove_error env p = None ∧ wants_directory p = true ∧
          is_file (files w !! node_key p) = true))).
Proof.
  unfold remove. io_unfold.
  destruct (remove_error env p) as [e|]; [right; exists e; by split; [|left]|].
  destruct (wants_directory p && is_file (files w !! node_key p)) eqn:E.
  - apply andb_true_iff in E as [? ?]. right. eexists. split; [done|]. by right.
  - by left.
Qed.

(** A path that does not end in a slash is removed whenever the
    environment lets it. *)
Lemma remove_succeeds p w :
  wants_directory p = false → remove_error env p = None →
  remove env p w
    = (Ok tt, {| files := fs_remove p (files w); trace := trace w ++ [EvRemove p] |}).
Proof.
  intros Hp Hrm. unfold remove. io_unfold.
  by rewrite Hrm, Hp, node_key_settled.
Qed.

(** How the promise around the archiver ends. *)
Lemma createArchive_cases zipPath folder w :
  createArchive env zipPath folder w =
    match archive_of env folder with
    | Closes =>
        (Ok tt,
         {| files := <[zipPath :=
                         File (Zip true (archive_entries (node_key folder) (files w)))]>
                       (files w);
            trace := trace w ++ [EvArchiveClose zipPath folder] |})
    | Errors e written =>
        (Throw e,
         {| files := partial_archive zipPath folder written (files w);
            trace := trace w ++ [EvArchiveError zipPath folder e] |})
    | StreamFails e written =>
        (Crash e,
         {| files := partial_archive zipPath folder written (files w);
            trace := trace w ++ [EvArchiveError zipPath folder e] |})
    end.
Proof.
  unfold createArchive. io_unfold.
  destruct (archive_of env folder) as [|e [n|]|e [n|]]; reflexivity.
Qed.

(** Whatever the archiver leaves keeps every node that was there, the
    archive path apart. *)
Lemma partial_archive_lookup zipPath folder written fs k :
  k ≠ zipPath → partial_archive zipPath folder written fs !! k = fs !! k.
Proof. intros Hk. destruct written; [by apply lookup_insert_ne | done]. Qed.

End Calls.

(** ** [compactDirectory] *)

Section Compaction.

Variable dirname : string.
Variable env : Env.

Local Abbreviation U := (UPLOADS_DIR dirname).

Lemma zip_path_settled d : wants_directory (Path.join [U; d +:+ ".zip"]) = false.
Proof. by apply join_suffix_settled. Qed.

Lemma lock_path_settled d : wants_directory (Path.join [U; d +:+ ".uploading"]) = false.
Proof. by apply join_suffix_settled. Qed.

(** The three stretches of [compactDirectory], each in terms of the calls
    it makes. *)
Lemma compactDirectory_eq d w :
  let folderPath := Path.join [U; d] in
  let zipPath := Path.join [U; d +:+ ".zip"] in
  compactDirectory dirname env d w =
    if negb (is_directory (fs_at (files w) folderPath))
    then (Ok (Skipped d "not-directory"), w)
    else if bool_decide (is_Some (files w !! zipPath)) then
      match remove env folderPath w with
      | (Ok _, w') => (Ok (Removed d true), w')
      | (Throw e, w') => (Ok (Error d e), w')
      | (Crash e, w') => (Crash e, w')
      end
    else
      match createArchive env zipPath folderPath w with
      | (Ok _, w1) =>
          match remove env folderPath w1 with
          | (Ok _, w') => (Ok (Compacted d), w')
          | (Throw e, w') => (Ok (Error d e), w')
          | (Crash e, w') => (Crash e, w')
          end
      | (Throw e, w1) => (Ok (Error d e), w1)
      | (Crash e, w1) => (Crash e, w1)
      end.
Proof.
  intros folderPath zipPath. unfold compactDirectory. fold folderPath zipPath.
  unfold bind at 1, stat, bind at 1, get_files, ret at 1. cbn beta iota.
  destruct (is_directory (fs_at (files w) folderPath)); cbn [negb]; [|reflexivity].
  unfold bind at 1, pathExists, bind at 1, get_files, ret at 1. cbn beta iota.
  rewrite (fs_at_settled _ zipPath) by apply zip_path_settled.
  destruct (bool_decide (is_Some (files w !! zipPath))).
  - unfold try_catch, bind, ret. by destruct (remove env folderPath w) as [[[]|e|e] w'].
  - unfold try_catch, bind at 1.
    destruct (createArchive env zipPath folderPath w) as [[[]|e|e] w1]; try reflexivity.
    unfold bind, ret. by destruct (remove env folderPath w1) as [[[]|e|e] w'].
Qed.

(** [compactDirectory] never rejects: it returns an outcome for the name
    it was given, unless the output stream of the archive fails, which
    ends the process. *)
Lemma compactDirectory_returns d w :
  (∃ o, (compactDirectory dirname env d w).1 = Ok o ∧ outcome_name o = d) ∨
  (∃ e written,
     (compactDirectory dirname env d w).1 = Crash e ∧
     archive_of env (Path.join [U; d]) = StreamFails e written).
Proof.
  rewrite compactDirectory_eq.
  destruct (is_directory _); cbn [negb]; [|left; by eexists].
  destruct (bool_decide _).
  - destruct (remove_cases env (Path.join [U; d]) w) as [[-> _]|(e & -> & _)];
      left; by eexists.
  - rewrite createArchive_cases.
    destruct (archive_of env (Path.join [U; d])) as [|e n|e n];
      [|left; by eexists|right; by exists e, n].
    match goal with |- context [remove env ?p ?v] =>
      destruct (remove_cases env p v) as [[-> _]|(e & -> & _)] end;
      left; by eexists.
Qed.

(** When the archiver reports an error the call returns it; nothing that
    existed is deleted or changed, what was written stays at the archive
    path, and nothing is removed. *)
Lemma compactDirectory_archiver_error d w message written :
  let folderPath := Path.join [U; d] in
  let zipPath := Path.join [U; d +:+ ".zip"] in
  fs_at (files w) folderPath = Some Dir →
  files w !! zipPath = None →
  archive_of env folderPath = Errors message written →
  ∃ w', compactDirectory dirname env d w = (Ok (Error d message), w') ∧
        (∀ k nd, files w !! k = Some nd → files w' !! k = Some nd) ∧
        files w' !! zipPath =
          (λ n, File (Zip false (take n (archive_entries (node_key folderPath)
                                           (files w))))) <$> written ∧
        trace w' = trace w ++ [EvArchiveError zipPath folderPath message].
Proof.
  intros folderPath zipPath Hdir Hzip Harch.
  rewrite compactDirectory_eq. fold folderPath zipPath.
  rewrite Hdir, Hzip. cbn [is_directory negb].
  rewrite bool_decide_eq_false_2 by (by intros [? ?]).
  rewrite createArchive_cases, Harch.
  eexists. split; [reflexivity|]. cbn [files trace]. split; [|split; [|done]].
  - intros k nd Hk. rewrite partial_archive_lookup; [done|]. intros ->. congruence.
  - destruct written as [n|]; [apply lookup_insert_eq | done].
Qed.

(** When the output stream fails the process ends inside the call: no
    outcome is returned, nothing that existed is deleted or changed, and
    nothing is removed. *)
Lemma compactDirectory_crashes d w message written :
  let folderPath := Path.join [U; d] in
  let zipPath := Path.join [U; d +:+ ".zip"] in
  fs_at (files w) folderPath = Some Dir →
  files w !! zipPath = None →
  archive_of env folderPath = StreamFails message written →
  compactDirectory dirname env d w
    = (Crash message,
       {| files := partial_archive zipPath folderPath written (files w);
          trace := trace w ++ [EvArchiveError zipPath folderPath message] |}).
Proof.
  intros folderPath zipPath Hdir Hzip Harch.
  rewrite compactDirectory_eq. fold folderPath zipPath.
  rewrite Hdir, Hzip. cbn [is_directory negb].
  rewrite bool_decide_eq_false_2 by (by intros [? ?]).
  by rewrite createArchive_cases, Harch.
Qed.

(** After a call that ends in [compacted] nothing is left of the folder. *)
Lemma compacted_folder_gone d w w1 :
  compactDirectory dirname env d w = (Ok (Compacted d), w1) →
  fs_at (files w1) (Path.join [U; d]) = None.
Proof.
  rewrite compactDirectory_eq.
  destruct (is_directory _); cbn [negb]; [|discriminate].
  destruct (bool_decide _).
  - destruct (remove env (Path.join [U; d]) w) as [[[]|e|e] w']; discriminate.
  - rewrite createArchive_cases.
    destruct (archive_of env (Path.join [U; d])) as [|e n|e n]; [|discriminate..].
    match goal with |- context [remove env ?p ?v] =>
      destruct (remove_cases env p v) as [[-> _]|(e & -> & _)] end; [|discriminate].
    intros [= <-]. apply fs_at_missing. cbn [files].
    by rewrite fs_remove_lookup, at_or_under_self.
Qed.

(** [removed] comes out of the fast path only: the folder is a directory
    and something exists at its archive path when the call is made; the
    call then makes no archive and removes the folder. *)
Lemma removed_only_beside_archive d w n zipExisted w1 :
  compactDirectory dirname env d w = (Ok (Removed n zipExisted), w1) →
  n = d ∧ zipExisted = true ∧
  is_directory (fs_at (files w) (Path.join [U; d])) = true ∧
  is_Some (files w !! Path.join [U; d +:+ ".zip"]) ∧
  trace w1 = trace w ++ [EvRemove (Path.join [U; d])].
Proof.
  rewrite compactDirectory_eq.
  destruct (is_directory _); cbn [negb]; [|discriminate].
  destruct (bool_decide _) eqn:Hz.
  - apply bool_decide_eq_true in Hz.
    destruct (remove_cases env (Path.join [U; d]) w) as [[-> _]|(e & -> & _)];
      [|discriminate].
    by intros [= <- <- <-].
  - rewrite createArchive_cases.
    destruct (archive_of env (Path.join [U; d])) as [|e k|e k]; [|discriminate..].
    match goal with |- context [remove env ?p ?v] =>
      destruct (remove_cases env p v) as [[-> _]|(e & -> & _)] end; discriminate.
Qed.

End Compaction.

(** C7.  An error of the archive's output stream is not caught: lines
    33-41 listen to the archiver's [error] and to the stream's [close]
    only.  The folder below has a name of 252 characters, so that its
    archive's name is one character too long for a file; the stream fails
    with ENAMETOOLONG and the call neither returns an error outcome nor
    throws, the process ends.  Folder and files are left as they were.
    Where the archiver itself reports the error the call does return the
    error outcome, in every environment and state: nothing that existed is
    changed, what was written of the archive stays, and nothing is
    removed. *)
Theorem compactDirectory_stream_failure :
  let run := compactDirectory "/srv/app" name_limited long_name long_world in
  String.length (long_name +:+ ".zip") = 256 ∧
  run.1 = Crash "ENAMETOOLONG" ∧
  (∀ o, run.1 ≠ Ok o) ∧
  files run.2 = files long_world ∧
  (∀ dirname env d w message written,
     fs_at (files w) (Path.join [UPLOADS_DIR dirname; d]) = Some Dir →
     files w !! Path.join [UPLOADS_DIR dirname; d +:+ ".zip"] = None →
     archive_of env (Path.join [UPLOADS_DIR dirname; d]) = Errors message written →
     ∃ w', compactDirectory dirname env d w = (Ok (Error d message), w') ∧
           (∀ k nd, files w !! k = Some nd → files w' !! k = Some nd) ∧
           (written = None →
            files w' !! Path.join [UPLOADS_DIR dirname; d +:+ ".zip"] = None) ∧
           (∀ n, written = Some n →
                 ∃ entries,
                   files w' !! Path.join [UPLOADS_DIR dirname; d +:+ ".zip"]
                     = Some (File (Zip false entries))) ∧
           no_removal (drop (length (trace w)) (trace w'))).
Proof.
  intros run.
  assert (Hrun : run = (Crash "ENAMETOOLONG",
                        {| files := files long_world;
                           trace := [EvArchiveError
                                       (Path.join [UPLOADS_DIR "/srv/app"; long_name +:+ ".zip"])
                                       (Path.join [UPLOADS_DIR "/srv/app"; long_name])
                                       "ENAMETOOLONG"] |})).
  { apply (compactDirectory_crashes "/srv/app" name_limited long_name long_world
             "ENAMETOOLONG" None); vm_compute; reflexivity. }
  rewrite Hrun. cbn [fst snd files].
  split; [vm_compute; reflexivity|]. split; [reflexivity|].
  split; [discriminate|]. split; [reflexivity|].
  clear Hrun run.
  intros dirname env d w message written Hdir Hzip Harch.
  destruct (compactDirectory_archiver_error dirname env d w message written Hdir Hzip Harch)
    as (w' & Hrun & Hkeep & Hpart & Htrace).
  exists w'. split; [exact Hrun|]. split; [exact Hkeep|].
  split; [intros ->; exact Hpart|].
  split; [intros n ->; eexists; exact Hpart|].
  rewrite Htrace, drop_app_length. unfold no_removal.
  apply Forall_cons. split; [intros p; discriminate | constructor].
Qed.

(** The archiver's own error on the folder [docs]: the outcome is the
    error, and the truncated archive and the folder both stay. *)
Example compactDirectory_archiver_error_docs :
  ∃ w', compactDirectory "/srv/app" flaky "docs" docs_world
          = (Ok (Error "docs" "disk full"), w') ∧
        files w' !! "/srv/app/uploads/docs" = Some Dir ∧
        files w' !! "/srv/app/uploads/docs/b.txt" = Some (File (Raw "world")) ∧
        files w' !! "/srv/app/uploads/docs.zip"
          = Some (File (Zip false [("a.txt", Raw "hello")])) ∧
        trace w' =
          [EvArchiveError "/srv/app/uploads/docs.zip" "/srv/app/uploads/docs" "disk full"].
Proof. eexists. repeat split; vm_compute; reflexivity. Qed.

(** C5.  Two calls of [compactDirectory] in a row on the same name: when
    the first ends in [compacted], the second ends in [skipped] with reason
    [not-directory], in any environment; it is not an error, and it leaves
    files and trace untouched, so no second archive appears.  And [removed]
    is the outcome of a call only when, at the time of the call, the folder
    is a directory and something exists at its archive path; such a call
    makes no archive. *)
Theorem compactDirectory_twice dirname env1 env2 dirName w w1 :
  (compactDirectory dirname env1 dirName w = (Ok (Compacted dirName), w1) →
   compactDirectory dirname env2 dirName w1
     = (Ok (Skipped dirName "not-directory"), w1)) ∧
  (∀ n zipExisted,
     compactDirectory dirname env1 dirName w = (Ok (Removed n zipExisted), w1) →
     n = dirName ∧ zipExisted = true ∧
     is_directory (fs_at (files w) (Path.join [UPLOADS_DIR dirname; dirName])) = true ∧
     is_Some (files w !! Path.join [UPLOADS_DIR dirname; dirName +:+ ".zip"]) ∧
     trace w1 = trace w ++ [EvRemove (Path.join [UPLOADS_DIR dirname; dirName])]).
Proof.
  split.
  - intros H. apply compactDirectory_skips.
    by rewrite (compacted_folder_gone _ _ _ _ _ H).
  - intros n zipExisted. apply removed_only_beside_archive.
Qed.

Lemma compactDirectory_twice_witness :
  ∃ w1, compactDirectory "/srv/app" calm "docs" docs_world = (Ok (Compacted "docs"), w1) ∧
        compactDirectory "/srv/app" flaky "docs" w1
          = (Ok (Skipped "docs" "not-directory"), w1).
Proof.
  eexists. split; [vm_compute; reflexivity|].
  apply (proj1 (compactDirectory_twice "/srv/app" calm flaky "docs" docs_world _)).
  vm_compute. reflexivity.
Defined.

(** C5, as stated, fails: on the folder [docs] the first call ends in
    [compacted] and the second ends in [skipped], which is not [removed]. *)
Lemma compactDirectory_twice_not_removed :
  ∃ w1 w2 second,
    compactDirectory "/srv/app" calm "docs" docs_world = (Ok (Compacted "docs"), w1) ∧
    compactDirectory "/srv/app" calm "docs" w1 = (Ok second, w2) ∧
    second = Skipped "docs" "not-directory" ∧
    ∀ zipExisted, second ≠ Removed "docs" zipExisted.
Proof.
  do 3 eexists. split; [vm_compute; reflexivity|].
  split; [vm_compute; reflexivity|]. split; [reflexivity | discriminate].
Qed.

(** ** [deleteFile] *)

Section DeleteFile.

Variable dirname : string.
Variable env : Env.



End DeleteFile.




(** ** The upload handler *)

Lemma bind_ok {A B} (m : IO A) (k : A → IO B) w b w' :
  bind m k w = (Ok b, w') → ∃ a w1, m w = (Ok a, w1) ∧ k a w1 = (Ok b, w').
Proof.
  unfold bind. destruct (m w) as [[a|e|e] w1]; [eauto | discriminate..].
Qed.

Lemma split_includes s :
  Str.includes_slash s = true → ∃ root x rest, Str.split s = root :: x :: rest.
Proof.
  induction s as [|c s IH]; simpl; [discriminate|].
  destruct (Ascii.eqb c Str.slash).
  - intros _. pose proof (split_nonempty s). destruct (Str.split s); [done | eauto].
  - intros H. destruct (IH H) as (root & x & rest & ->). eauto.
Qed.

Lemma getRootName_first first rest :
  getRootName (first :: rest) =
    if Str.includes_slash first then Some (hd "" (Str.split first)) else None.
Proof.
  unfold getRootName. destruct (Str.includes_slash first) eqn:E.
  - by destruct (split_includes _ E) as (root & x & tl & ->).
  - by rewrite split_no_slash.
Qed.

(** The folder name shown in a successful folder upload is [baseName]. *)
Lemma upload_folder_name dirname env field fs now w w' folder :
  upload dirname env field fs now w
    = (Ok {| status := 200; body := UploadedFolder folder |}, w') →
  folder = baseName (paths_of field) now.
Proof.
  unfold upload, try_catch.
  destruct (decide (length fs = 0)); [io_unfold; discriminate|].
  match goal with |- context [if ?b then _ else _] => destruct b end.
  - destruct (bind _ _ w) as [[r|e|e] w1] eqn:E; [|io_unfold; discriminate..].
    apply bind_ok in E as (? & ? & _ & E). unfold ret in E. congruence.
  - destruct (upload_folder _ _ _ _ _ w) as [[r|e|e] w1] eqn:E; [|io_unfold; discriminate..].
    unfold upload_folder in E.
    repeat (apply bind_ok in E as (? & ? & _ & E)).
    unfold ret in E. congruence.
Qed.

(** ** What the calls add to the trace *)

Section Traces.

Variable dirname : string.
Variable env : Env.

Lemma no_removal_nil : no_removal [].
Proof. constructor. Qed.

Lemma no_removal_app evs evs' : no_removal evs → no_removal evs' → no_removal (evs ++ evs').
Proof. intros. by apply Forall_app. Qed.

(** Close a goal about a run that appends nothing, or one harmless event. *)
Ltac quiet_case :=
  first [ exists []; split; [by rewrite app_nil_r | apply no_removal_nil]
        | eexists [_]; split; [done | by repeat constructor] ].

Lemma quiet_ret {A} (a : A) : quiet (ret a).
Proof. intros w. exists []. split; [by rewrite app_nil_r | apply no_removal_nil]. Qed.

Lemma quiet_throw {A} e : quiet (throw e : IO A).
Proof. intros w. exists []. split; [by rewrite app_nil_r | apply no_removal_nil]. Qed.

Lemma quiet_crash {A} e : quiet (crash e : IO A).
Proof. intros w. exists []. split; [by rewrite app_nil_r | apply no_removal_nil]. Qed.

Lemma quiet_lift {A} (r : result A) : quiet (lift r).
Proof. destruct r; [apply quiet_ret | apply quiet_throw | apply quiet_crash]. Qed.

Lemma quiet_bind {A B} (m : IO A) (k : A → IO B) :
  quiet m → (∀ a, quiet (k a)) → quiet (bind m k).
Proof.
  intros Hm Hk w. unfold bind. destruct (Hm w) as (new & Ht & Hn).
  destruct (m w) as [[a|e|e] w1]; simpl in *; [|by exists new..].
  destruct (Hk a w1) as (new' & Ht' & Hn'). exists (new ++ new').
  split; [by rewrite Ht', Ht, app_assoc | by apply no_removal_app].
Qed.

Lemma quiet_ensureDir p : quiet (ensureDir env p).
Proof.
  intros w. unfold ensureDir. io_unfold.
  destruct (write_error env p), (mkdirs (lineage (node_key p)) (files w)); io_unfold;
    quiet_case.
Qed.

Lemma quiet_outputFile p data : quiet (outputFile env p data).
Proof.
  intros w. unfold outputFile. io_unfold.
  destruct (write_error env p),
    (mkdirs (removelast (lineage (node_key p))) (files w)) as [fs'|];
    io_unfold; try quiet_case.
  destruct (Path.trailingSeparator p); io_unfold; [quiet_case|].
  destruct (is_directory (fs' !! p)); io_unfold; quiet_case.
Qed.

Lemma quiet_write_flat fs : quiet (write_flat dirname env fs).
Proof.
  induction fs as [|f fs IH]; simpl; [apply quiet_ret|].
  apply quiet_bind; [apply quiet_lift|]. intros p.
  apply quiet_bind; [apply quiet_outputFile | done].
Qed.

Lemma quiet_write_tree baseDir paths i fs : quiet (write_tree env baseDir paths i fs).
Proof.
  revert i. induction fs as [|f fs IH]; intros i; simpl; [apply quiet_ret|].
  apply quiet_bind; [apply quiet_lift|]. intros p.
  apply quiet_bind; [apply quiet_outputFile | done].
Qed.

Lemma createArchive_trace zipPath folder w :
  ((createArchive env zipPath folder w).1 = Ok tt ∧
   trace (createArchive env zipPath folder w).2
     = trace w ++ [EvArchiveClose zipPath folder]) ∨
  (∃ e, ((createArchive env zipPath folder w).1 = Throw e ∨
         (createArchive env zipPath folder w).1 = Crash e) ∧
        trace (createArchive env zipPath folder w).2
          = trace w ++ [EvArchiveError zipPath folder e]).
Proof.
  rewrite createArchive_cases.
  destruct (archive_of env folder) as [|e n|e n]; [by left|..];
    right; exists e; (split; [by (left + right) | done]).
Qed.

Lemma remove_trace p w :
  ((remove env p w).1 = Ok tt ∧ trace (remove env p w).2 = trace w ++ [EvRemove p]) ∨
  (∃ e, (remove env p w).1 = Throw e ∧ (remove env p w).2 = w).
Proof.
  destruct (remove_cases env p w) as [[-> _]|(e & -> & _)];
    [by left | right; by exists e].
Qed.

Lemma upload_folder_trace paths fs now w :
  let baseDir := Path.join [UPLOADS_DIR dirname; baseName paths now] in
  let zipPath := Path.join [UPLOADS_DIR dirname; baseName paths now +:+ ".zip"] in
  ∃ new, trace (upload_folder dirname env paths fs now w).2 = trace w ++ new ∧
         archive_then_remove zipPath baseDir new.
Proof.
  intros baseDir zipPath. unfold upload_folder. fold baseDir zipPath.
  unfold bind at 1.
  destruct (quiet_ensureDir baseDir w) as (n1 & Ht1 & Hn1).
  destruct (ensureDir env baseDir w) as [[[]|e|e] w1]; simpl in Ht1;
    [|exists n1; split; [done | by left]..].
  unfold bind at 1.
  destruct (quiet_write_tree baseDir paths 0 fs w1) as (n2 & Ht2 & Hn2).
  destruct (write_tree env baseDir paths 0 fs w1) as [[[]|e|e] w2]; simpl in Ht2;
    [|exists (n1 ++ n2); split;
        [by simpl; rewrite Ht2, Ht1, app_assoc | left; by apply no_removal_app]..].
  unfold bind at 1.
  destruct (createArchive_trace zipPath baseDir w2) as [[Hr Ht3]|(e & Hr & Ht3)];
    destruct (createArchive env zipPath baseDir w2) as [r3 w3]; simpl in Hr, Ht3.
  2: { exists (n1 ++ n2 ++ [EvArchiveError zipPath baseDir e]). split.
       - destruct Hr as [-> | ->]; simpl; rewrite Ht3, Ht2, Ht1; by rewrite <- !app_assoc.
       - left. repeat apply no_removal_app; try done. by repeat constructor. }
  subst r3. unfold bind at 1, try_catch.
  destruct (remove_trace baseDir w3) as [[Hr Ht4]|(e & Hr & Hw)];
    destruct (remove env baseDir w3) as [r4 w4]; simpl in *; subst r4.
  - exists ((n1 ++ n2) ++ [EvArchiveClose zipPath baseDir; EvRemove baseDir]). split.
    + simpl. rewrite Ht4, Ht3, Ht2, Ht1. by rewrite <- !app_assoc.
    + right. exists (n1 ++ n2). split; [by apply no_removal_app | done].
  - subst w4. exists (n1 ++ n2 ++ [EvArchiveClose zipPath baseDir]). split.
    + simpl. rewrite Ht3, Ht2, Ht1. by rewrite <- !app_assoc.
    + left. repeat apply no_removal_app; try done. by repeat constructor.
Qed.

Lemma upload_trace field fs now w :
  let paths := paths_of field in
  let baseDir := Path.join [UPLOADS_DIR dirname; baseName paths now] in
  let zipPath := Path.join [UPLOADS_DIR dirname; baseName paths now +:+ ".zip"] in
  ∃ new, trace (upload dirname env field fs now w).2 = trace w ++ new ∧
         archive_then_remove zipPath baseDir new.
Proof.
  intros paths baseDir zipPath. unfold upload, try_catch. fold paths.
  destruct (decide (length fs = 0)).
  { exists []. split; [by rewrite app_nil_r | left; apply no_removal_nil]. }
  match goal with |- context [if ?b then _ else _] => destruct b end.
  - assert (Hq : quiet (write_flat dirname env fs ;;
              ret {| status := 200;
                     body := UploadedFiles (map (λ f, Path.basename (originalname f)) fs) |}))
      by (apply quiet_bind; [apply quiet_write_flat | intros; apply quiet_ret]).
    destruct (Hq w) as (new & Ht & Hn).
    match type of Ht with trace (?m w).2 = _ => destruct (m w) as [[r|e|e] w1] end;
      exists new; by split; [|left].
  - destruct (upload_folder_trace paths fs now w) as (new & Ht & Hn).
    destruct (upload_folder dirname env paths fs now w) as [[r|e|e] w1];
      exists new; by split.
Qed.

(** The events one call of [compactDirectory] appends. *)
Lemma compactDirectory_trace dirName w :
  let folderPath := Path.join [UPLOADS_DIR dirname; dirName] in
  let zipPath := Path.join [UPLOADS_DIR dirname; dirName +:+ ".zip"] in
  ∃ new, trace (compactDirectory dirname env dirName w).2 = trace w ++ new ∧
         (no_removal new ∨
          new = [EvArchiveClose zipPath folderPath; EvRemove folderPath] ∨
          (is_Some (files w !! zipPath) ∧ new = [EvRemove folderPath])).
Proof.
  intros folderPath zipPath. rewrite compactDirectory_eq. fold folderPath zipPath.
  destruct (is_directory _); cbn [negb].
  2: { exists []. split; [by rewrite app_nil_r | left; apply no_removal_nil]. }
  destruct (bool_decide (is_Some (files w !! zipPath))) eqn:Hz.
  - apply bool_decide_eq_true in Hz.
    destruct (remove_cases env folderPath w) as [[-> _]|(e & -> & _)].
    + exists [EvRemove folderPath]. split; [done | by right; right].
    + exists []. split; [by rewrite app_nil_r | left; apply no_removal_nil].
  - rewrite createArchive_cases.
    destruct (archive_of env folderPath) as [|e n|e n].
    2,3: exists [EvArchiveError zipPath folderPath e]; split; [done|];
         left; by repeat constructor.
    match goal with |- context [remove env ?p ?v] =>
      destruct (remove_cases env p v) as [[-> _]|(e & -> & _)] end.
    + exists [EvArchiveClose zipPath folderPath; EvRemove folderPath].
      split; [by cbn [trace snd]; rewrite <- app_assoc | by right; left].
    + exists [EvArchiveClose zipPath folderPath]. split; [done|].
      left. by repeat constructor.
Qed.

End Traces.

(** C6.  Removal follows a closed archive wherever an archive is made: the
    events the upload handler appends contain no removal, or end with the
    close of the folder's archive followed by the removal of the folder;
    one call of [compactDirectory] appends no removal, or exactly that pair,
    or, when something already exists at the archive path, the removal of
    the folder alone. *)
Theorem removal_follows_archive_close :
  (∀ dirname env field fs now w,
     let baseDir := Path.join [UPLOADS_DIR dirname; baseName (paths_of field) now] in
     let zipPath :=
       Path.join [UPLOADS_DIR dirname; baseName (paths_of field) now +:+ ".zip"] in
     ∃ new, trace (upload dirname env field fs now w).2 = trace w ++ new ∧
            archive_then_remove zipPath baseDir new) ∧
  (∀ dirname env dirName w,
     let folderPath := Path.join [UPLOADS_DIR dirname; dirName] in
     let zipPath := Path.join [UPLOADS_DIR dirname; dirName +:+ ".zip"] in
     ∃ new, trace (compactDirectory dirname env dirName w).2 = trace w ++ new ∧
            (no_removal new ∨
             new = [EvArchiveClose zipPath folderPath; EvRemove folderPath] ∨
             (is_Some (files w !! zipPath) ∧ new = [EvRemove folderPath]))).
Proof.
  split.
  - intros. apply upload_trace.
  - intros. apply compactDirectory_trace.
Qed.

(** C6, as stated, fails: archiving [docs] breaks off after one entry and
    leaves a truncated archive; the next call of [compactDirectory] finds a
    file at the archive path and removes the folder.  No archive was ever
    closed, the file left behind is not finalized, and [docs/b.txt] is in
    neither place. *)
Lemma folder_removed_without_archive :
  ∃ w1 w2,
    compactDirectory "/srv/app" flaky "docs" docs_world
      = (Ok (Error "docs" "disk full"), w1) ∧
    compactDirectory "/srv/app" calm "docs" w1 = (Ok (Removed "docs" true), w2) ∧
    trace w2 =
      [EvArchiveError "/srv/app/uploads/docs.zip" "/srv/app/uploads/docs" "disk full";
       EvRemove "/srv/app/uploads/docs"] ∧
    files w2 !! "/srv/app/uploads/docs" = None ∧
    files w2 !! "/srv/app/uploads/docs/b.txt" = None ∧
    files w2 !! "/srv/app/uploads/docs.zip"
      = Some (File (Zip false [("a.txt", Raw "hello")])).
Proof.
  do 2 eexists. split; [vm_compute; reflexivity|].
  split; [vm_compute; reflexivity|]. repeat split; vm_compute; reflexivity.
Qed.

(** C2.  A folder upload takes no lock: for the batch [docs/a.txt],
    [docs/sub/b.txt] the handler creates the folder, writes the two files,
    archives and removes the folder; at no point does it create or remove
    [docs.uploading], which is absent before, during and after. *)
Theorem upload_creates_no_lock_marker :
  let run := upload "/srv/app" calm (PathsArray ["docs/a.txt"; "docs/sub/b.txt"])
               two_files 1700000000000 fresh_world in
  run.1 = Ok {| status := 200; body := UploadedFolder "docs" |} ∧
  trace run.2 =
    [EvMkdir "/srv/app/uploads/docs";
     EvWrite "/srv/app/uploads/docs/a.txt" "hello";
     EvWrite "/srv/app/uploads/docs/sub/b.txt" "world";
     EvArchiveClose "/srv/app/uploads/docs.zip" "/srv/app/uploads/docs";
     EvRemove "/srv/app/uploads/docs"] ∧
  files fresh_world !! "/srv/app/uploads/docs.uploading" = None ∧
  files run.2 !! "/srv/app/uploads/docs.uploading" = None.
Proof. repeat split; vm_compute; reflexivity. Qed.

(** Between the two writes of that upload, a sweep finds [docs] unlocked and
    compacts it: the folder the handler is still writing into is archived
    with one file and removed. *)
Example sweep_during_upload :
  ∃ w_mid w',
    (await _ ← ensureDir calm "/srv/app/uploads/docs";
     write_tree calm "/srv/app/uploads/docs" ["docs/a.txt"; "docs/sub/b.txt"] 0
       [ {| originalname := "a.txt"; buffer := "hello" |} ]) fresh_world
      = (Ok tt, w_mid) ∧
    compactAll "/srv/app" calm w_mid = (Ok [Compacted "docs"], w') ∧
    files w' !! "/srv/app/uploads/docs" = None ∧
    files w' !! "/srv/app/uploads/docs.zip"
      = Some (File (Zip true [("a.txt", Raw "hello")])).
Proof.
  do 2 eexists. split; [vm_compute; reflexivity|].
  split; [vm_compute; reflexivity|]. split; vm_compute; reflexivity.
Qed.

(** ** The sweep *)

Section Sweep.

Variable dirname : string.
Variable env : Env.
Hypothesis dirname_absolute : Path.isAbsolute dirname = true.

Local Abbreviation U := (UPLOADS_DIR dirname).

(** Two different names under the uploads root have disjoint subtrees. *)
Lemma sibling_apart a b x y :
  Str.includes_slash a = false → Str.includes_slash b = false →
  boundary x → boundary y →
  (U +:+ "/" +:+ a) +:+ x = (U +:+ "/" +:+ b) +:+ y → a = b ∧ x = y.
Proof.
  intros Ha Hb Hx Hy Heq. rewrite !sapp_assoc in Heq.
  apply (inj (String.app U)) in Heq. apply (inj (String.app "/")) in Heq.
  by apply segment_cut.
Qed.

Lemma boundary_empty : boundary "".
Proof. by left. Qed.

(** What one call of [compactDirectory] leaves alone, however it ends. *)
Lemma compactDirectory_frame dirName w k :
  let folderPath := Path.join [U; dirName] in
  let zipPath := Path.join [U; dirName +:+ ".zip"] in
  at_or_under (node_key folderPath) k = false →
  k ≠ zipPath ∨ is_Some (files w !! zipPath) →
  files (compactDirectory dirname env dirName w).2 !! k = files w !! k.
Proof.
  intros folderPath zipPath Hout Hzip.
  rewrite compactDirectory_eq. fold folderPath zipPath.
  destruct (is_directory _); cbn [negb]; [|done].
  destruct (bool_decide (is_Some (files w !! zipPath))) eqn:Hz.
  - destruct (remove_cases env folderPath w) as [[-> _]|(e & -> & _)]; [|done].
    cbn [snd files]. by rewrite fs_remove_lookup, Hout.
  - apply bool_decide_eq_false in Hz. destruct Hzip as [Hne|?]; [|done].
    rewrite createArchive_cases.
    destruct (archive_of env folderPath) as [|e n|e n]; cbn [snd files];
      [|by apply partial_archive_lookup..].
    match goal with |- context [remove env ?p ?v] =>
      destruct (remove_cases env p v) as [[-> _]|(e & -> & _)] end;
      cbn [snd files]; rewrite ?fs_remove_lookup, ?Hout; by rewrite lookup_insert_ne.
Qed.

(** The locked folder. *)
Variable A : string.
Hypothesis A_plain : plain A.

Local Abbreviation folderA := (Path.join [U; A]).
Local Abbreviation lockA := (Path.join [U; A +:+ ".uploading"]).

Lemma A_slash_free : Str.includes_slash A = false.
Proof. by destruct A_plain as (_ & _ & _ & ?). Qed.

Lemma lock_name_plain : plain (A +:+ ".uploading").
Proof. apply plain_suffix; [apply A_slash_free | done | simpl; lia]. Qed.

(** Compacting another folder leaves the locked folder and its marker as
    they are. *)
Lemma compactDirectory_other B w c :
  plain B → B ≠ A →
  files w !! folderA = Some Dir → files w !! lockA = Some (File c) →
  (∀ k, at_or_under folderA k = true →
        files (compactDirectory dirname env B w).2 !! k = files w !! k) ∧
  files (compactDirectory dirname env B w).2 !! lockA = Some (File c).
Proof.
  intros HB Hne HA Hlock.
  assert (HBs : Str.includes_slash B = false) by by destruct HB as (_ & _ & _ & ?).
  assert (Hzp : plain (B +:+ ".zip")) by (apply plain_suffix; [done..|simpl; lia]).
  assert (Hzs : Str.includes_slash (B +:+ ".zip") = false)
    by by destruct Hzp as (_ & _ & _ & ?).
  pose proof A_slash_free as HAs. pose proof lock_name_plain as Hlp.
  assert (Hls : Str.includes_slash (A +:+ ".uploading") = false)
    by by destruct Hlp as (_ & _ & _ & ?).
  assert (HkB : node_key (Path.join [U; B]) = Path.join [U; B]).
  { rewrite child_path by done. by apply node_key_settled, child_settled. }
  split.
  - intros k Hk. apply at_or_under_spec in Hk as (x & Hx & ->).
    apply compactDirectory_frame.
    + rewrite HkB. apply not_true_is_false. intros (y & Hy & Heq)%at_or_under_spec.
      rewrite !child_path in Heq by done.
      by apply sibling_apart in Heq as [? _].
    + destruct (decide (folderA +:+ x = Path.join [U; B +:+ ".zip"])) as [Heq|]; [|by left].
      right. rewrite <- Heq.
      rewrite !child_path in Heq by done.
      rewrite <- (sapp_empty_r (U +:+ "/" +:+ B +:+ ".zip")) in Heq.
      apply sibling_apart in Heq as [_ ->]; [|done..|apply boundary_empty].
      rewrite sapp_empty_r, HA. by eexists.
  - destruct (is_directory (files w !! Path.join [U; B])) eqn:Hdir.
    2: { rewrite compactDirectory_skips; [done|].
         by rewrite is_directory_fs_at, HkB. }
    rewrite compactDirectory_frame; [done| |].
    + rewrite HkB. apply not_true_is_false. intros (y & Hy & Heq)%at_or_under_spec.
      assert (Heq' := Heq). rewrite !child_path in Heq' by done.
      rewrite <- (sapp_empty_r (U +:+ "/" +:+ A +:+ ".uploading")) in Heq'.
      apply sibling_apart in Heq' as [_ <-]; [|done..|apply boundary_empty|done].
      rewrite sapp_empty_r in Heq. rewrite <- Heq, Hlock in Hdir. done.
    + destruct (decide (lockA = Path.join [U; B +:+ ".zip"])) as [<-|]; [|by left].
      right. rewrite Hlock. by eexists.
Qed.

(** The loop of [compactAll] over any entries, with [A] locked: it returns
    outcomes none of which names [A], or the process ends on an output
    stream that failed; either way what is at or below [A] is as it was. *)
Lemma sweep_frame entries results w c :
  (∀ ent, ent ∈ entries →
          name ent ≠ "" ∧ Str.includes_slash (name ent) = false) →
  files w !! folderA = Some Dir → files w !! lockA = Some (File c) →
  ∃ r w',
    sweep dirname env entries results w = (r, w') ∧
    (∀ k, at_or_under folderA k = true → files w' !! k = files w !! k) ∧
    ((∃ more, r = Ok (results ++ more) ∧ ∀ o, o ∈ more → outcome_name o ≠ A) ∨
     (∃ e folder written,
        r = Crash e ∧ archive_of env folder = StreamFails e written)).
Proof.
  revert results w. induction entries as [|ent entries IH]; intros results w Hnames HA Hlock.
  { exists (Ok results), w. split; [done|]. split; [done|]. left. exists [].
    rewrite app_nil_r. split; [done | by intros ? ?%elem_of_nil]. }
  assert (Hrest : ∀ e, e ∈ entries →
            name e ≠ "" ∧ Str.includes_slash (name e) = false)
    by (intros e He; apply Hnames; by right).
  cbn [sweep].
  destruct (isDirectory ent); [|by apply IH].
  destruct (Str.startsWith (name ent) ".") eqn:Hdot; [by apply IH|].
  unfold bind at 1, pathExists, bind at 1, get_files, ret at 1. cbn beta iota.
  rewrite fs_at_settled by apply lock_path_settled.
  destruct (bool_decide (is_Some (files w !! Path.join [U; name ent +:+ ".uploading"])))
    eqn:Hlocked; [by apply IH|].
  destruct (Hnames ent) as [Hne Hsl]; [by left|].
  assert (HB : plain (name ent)).
  { repeat split; [done| | |done]; intros E; rewrite E in Hdot; discriminate. }
  assert (HneA : name ent ≠ A).
  { intros E. rewrite E, Hlock in Hlocked.
    apply bool_decide_eq_false in Hlocked. apply Hlocked. by eexists. }
  destruct (compactDirectory_other (name ent) w c HB HneA HA Hlock) as [Hframe Hlock1].
  unfold bind at 1.
  destruct (compactDirectory_returns dirname env (name ent) w)
    as [(o & Ho & Hname)|(e & written & Ho & Hfail)];
    destruct (compactDirectory dirname env (name ent) w) as [r w1];
    cbn [fst snd] in *; subst r.
  - destruct (IH (results ++ [o]) w1) as (r & w' & Hrun & Hkeep & Hend); [done| |done|].
    { rewrite Hframe; [done | apply at_or_under_self]. }
    exists r, w'. split; [done|]. split.
    + intros k Hk. by rewrite Hkeep, Hframe.
    + destruct Hend as [(more & -> & Hout)|Hcrash]; [left | by right].
      exists (o :: more). split; [by rewrite <- app_assoc|].
      intros o' [->|?]%elem_of_cons; [congruence | by apply Hout].
  - exists (Crash e), w1. split; [done|]. split; [done|]. right. by eexists _, _, _.
Qed.

End Sweep.

(** C3.  A folder whose lock marker is a file at sweep time is passed over
    in silence.  In every environment every path at or below the folder
    holds after the sweep what it held before; and [compactAll] returns,
    with none of its outcomes naming the folder (there is no [skipped]
    outcome for it), unless the output stream of another folder's archive
    fails, which ends the process in the middle of the sweep. *)
Theorem compactAll_passes_over_locked_folder dirname env w A c :
  Path.isAbsolute dirname = true →
  plain A →
  files w !! UPLOADS_DIR dirname = Some Dir →
  files w !! Path.join [UPLOADS_DIR dirname; A] = Some Dir →
  files w !! Path.join [UPLOADS_DIR dirname; A +:+ ".uploading"] = Some (File c) →
  ∃ r w',
    compactAll dirname env w = (r, w') ∧
    (∀ k, at_or_under (Path.join [UPLOADS_DIR dirname; A]) k = true →
          files w' !! k = files w !! k) ∧
    ((∃ results, r = Ok results ∧ ∀ o, o ∈ results → outcome_name o ≠ A) ∨
     (∃ e folder written,
        r = Crash e ∧ archive_of env folder = StreamFails e written)).
Proof.
  intros Habs HA Hroot Hfolder Hlock. unfold compactAll, readdir.
  unfold bind at 1, bind at 1, get_files. cbn beta iota.
  rewrite fs_at_settled, Hroot by apply UPLOADS_DIR_settled. cbn [is_directory].
  unfold ret at 1. cbn beta iota.
  rewrite node_key_settled by apply UPLOADS_DIR_settled.
  destruct (sweep_frame dirname env Habs A HA
              (listing (UPLOADS_DIR dirname) (files w)) [] w c)
    as (r & w' & Hrun & Hkeep & Hend); [|done..|].
  { intros ent Hent. apply listing_names in Hent as (? & ? & _). done. }
  exists r, w'. done.
Qed.

Lemma compactAll_passes_over_locked_folder_witness :
  ∃ r w',
    compactAll "/srv/app" calm locked_world = (r, w') ∧
    (∀ k, at_or_under (Path.join [UPLOADS_DIR "/srv/app"; "docs"]) k = true →
          files w' !! k = files locked_world !! k) ∧
    ((∃ results, r = Ok results ∧ ∀ o, o ∈ results → outcome_name o ≠ "docs") ∨
     (∃ e folder written,
        r = Crash e ∧ archive_of calm folder = StreamFails e written)).
Proof.
  apply (compactAll_passes_over_locked_folder "/srv/app" calm locked_world "docs" (Raw ""));
    [reflexivity | repeat split; done | vm_compute; reflexivity..].
Defined.

(** C3, as stated, fails: with [docs] locked, the sweep compacts the idle
    folder and returns one outcome; no outcome, [skipped] or other, is
    recorded for [docs]. *)
Lemma compactAll_records_nothing_for_locked :
  ∃ w', compactAll "/srv/app" calm locked_world = (Ok [Compacted "old"], w') ∧
        ∀ reason, Skipped "docs" reason ∉ [Compacted "old"].
Proof.
  eexists. split; [vm_compute; reflexivity|].
  intros reason [?|?%elem_of_nil]%elem_of_cons; done.
Qed.

(** A locked folder beside a folder whose archive cannot be opened: the
    sweep passes over the locked folder and then ends with the process,
    returning nothing; the locked folder is as it was. *)
Example compactAll_locked_beside_stream_failure :
  let w := {| files := <["/srv/app/uploads/docs.uploading" := File (Raw "")]>
                         (<["/srv/app/uploads/docs" := Dir]> (files long_world));
              trace := [] |} in
  let run := compactAll "/srv/app" name_limited w in
  run.1 = Crash "ENAMETOOLONG" ∧
  files run.2 !! "/srv/app/uploads/docs" = Some Dir ∧
  files run.2 !! "/srv/app/uploads/docs.uploading" = Some (File (Raw "")).
Proof. repeat split; vm_compute; reflexivity. Qed.

(** ** [computeFolderSize] *)

Section SizeFacts.

Import Inventory.

Implicit Types (items : list (string * entry)) (stack : list entry) (total : N).

Lemma bytes_dir r items : bytes (DirEnt r items) = bytes_items items.
Proof.
  simpl. induction items as [|it items IH]; [reflexivity|].
  simpl. by rewrite IH.
Qed.

Lemma readable_dir_items r items :
  readable (DirEnt r items) = r && forallb (λ it, readable it.2) items.
Proof.
  destruct r; [|reflexivity]. cbn [andb].
  induction items as [|it items IH]; [reflexivity|].
  cbn [forallb]. rewrite <- IH. reflexivity.
Qed.

Lemma bytes_items_cons n it items :
  bytes_items ((n, it) :: items) = (bytes it + bytes_items items)%N.
Proof. reflexivity. Qed.

Lemma bytes_stack_cons e stack :
  bytes_stack (e :: stack) = (bytes e + bytes_stack stack)%N.
Proof. reflexivity. Qed.

(** Numbers up to 2^53 are exact, and so are their sums up to 2^53. *)
Lemma round_exact n : (n ≤ exact_range)%N → Num.round n = n.
Proof.
  intros Hn. unfold Num.round.
  destruct (n <? 2 ^ Num.precision)%N eqn:E; [reflexivity|].
  apply N.ltb_ge in E. assert (n = exact_range) as -> by (unfold exact_range in *; lia).
  vm_compute. reflexivity.
Qed.

Lemma add_exact a b : (a + b ≤ exact_range)%N → Num.add a b = (a + b)%N.
Proof.
  intros H. unfold Num.add.
  rewrite (round_exact a), (round_exact b) by lia. by apply round_exact.
Qed.

Lemma scan_readable items stack total :
  forallb (λ it, readable it.2) items = true →
  Forall readable_dir stack →
  (total + bytes_items items ≤ exact_range)%N →
  let r := scan items stack total in
  (r.2 + bytes_stack r.1 = total + bytes_items items + bytes_stack stack)%N ∧
  Forall readable_dir r.1.
Proof.
  revert stack total.
  induction items as [|[n it] items IH]; intros stack total Hr Hs Hex.
  { split; [|done].
    change (total + bytes_stack stack = total + 0 + bytes_stack stack)%N. lia. }
  cbn [forallb snd] in Hr. apply andb_true_iff in Hr as [Hit Hr].
  rewrite bytes_items_cons in Hex |- *.
  destruct it as [[sz|]|r its|]; cbn [scan].
  - cbn [bytes] in Hex. rewrite add_exact by lia.
    destruct (IH stack (total + sz)%N Hr Hs) as [IH1 IH2]; [lia|].
    split; [|done]. cbn zeta. rewrite IH1. cbn [bytes]. lia.
  - discriminate.
  - destruct (IH (DirEnt r its :: stack) total Hr) as [IH1 IH2]; [|lia|].
    { constructor; [exact Hit | done]. }
    split; [|done]. cbn zeta. rewrite IH1, bytes_stack_cons. lia.
  - destruct (IH stack total Hr Hs) as [IH1 IH2]; [cbn [bytes] in Hex; lia|].
    split; [|done]. cbn zeta. rewrite IH1. cbn [bytes]. lia.
Qed.

Lemma visit_readable current stack total :
  readable_dir current → Forall readable_dir stack →
  (total + bytes current ≤ exact_range)%N →
  let r := visit current stack total in
  (r.2 + bytes_stack r.1 = total + bytes current + bytes_stack stack)%N ∧
  Forall readable_dir r.1.
Proof.
  intros Hc Hs Hex. destruct current as [sz|r items|]; [done| |done].
  unfold readable_dir in Hc. rewrite readable_dir_items in Hc.
  apply andb_true_iff in Hc as [-> Hitems].
  rewrite bytes_dir in Hex |- *. unfold visit. by apply scan_readable.
Qed.



End SizeFacts.




(** Beyond 2^53 the total is no longer exact: files of 2^53 and 3 bytes
    are reported as one byte more than they hold. *)
Example computeFolderSize_rounds :
  Inventory.bytes huge_tree = 9007199254740995%N ∧
  Inventory.computeFolderSize huge_tree = 9007199254740996%N.
Proof. split; vm_compute; reflexivity. Qed.

(** The trees of the examples list their items the way [fs.readdir] does. *)
Example example_trees_in_order :
  Inventory.in_order lopsided_tree = true ∧
  Inventory.in_order flat_tree = true ∧
  Inventory.in_order small_tree = true ∧
  Inventory.in_order huge_tree = true.
Proof. repeat split; vm_compute; reflexivity. Qed.

(** ** The scenarios of the specification *)

(** A folder upload of [docs/a.txt] and [docs/sub/b.txt]: the archive holds
    both files under their relative paths and the folder is gone. *)
Example upload_docs_scenario :
  ∃ w', upload "/srv/app" calm (PathsArray ["docs/a.txt"; "docs/sub/b.txt"])
          two_files 1700000000000 fresh_world
          = (Ok {| status := 200; body := UploadedFolder "docs" |}, w') ∧
        files w' !! "/srv/app/uploads/docs.zip"
          = Some (File (Zip true [("sub/b.txt", Raw "world"); ("a.txt", Raw "hello")])) ∧
        files w' !! "/srv/app/uploads/docs" = None ∧
        files w' !! "/srv/app/uploads/docs/a.txt" = None.
Proof.
  eexists. split; [vm_compute; reflexivity|].
  repeat split; vm_compute; reflexivity.
Qed.

(** A flat upload of one file puts it in the uploads root. *)
Example upload_flat_scenario :
  ∃ w', upload "/srv/app" calm PathsAbsent
          [ {| originalname := "report.pdf"; buffer := "%PDF" |} ] 0 fresh_world
          = (Ok {| status := 200; body := UploadedFiles ["report.pdf"] |}, w') ∧
        files w' !! "/srv/app/uploads/report.pdf" = Some (File (Raw "%PDF")).
Proof.
  eexists. split; [vm_compute; reflexivity|].
  repeat split; vm_compute; reflexivity.
Qed.

(** A batch with the path [../../etc/passwd] fails, and nothing is written
    outside the uploads root. *)
Example upload_climbing_scenario :
  ∃ w', upload "/srv/app" calm (PathsArray ["docs/a.txt"; "../../etc/passwd"])
          two_files 0 fresh_world
          = (Ok {| status := 500; body := UploadFailed |}, w') ∧
        trace w' = [EvMkdir "/srv/app/uploads/docs";
                    EvWrite "/srv/app/uploads/docs/a.txt" "hello"] ∧
        files w' !! "/srv/etc/passwd" = None.
Proof.
  eexists. split; [vm_compute; reflexivity|].
  repeat split; vm_compute; reflexivity.
Qed.

(** * Further properties *)

(** ** Paths that stay inside the base *)

Section SafeJoinFacts.

Implicit Types (p n s base : string) (segs : list string).

Lemma slength_app a b : String.length (a +:+ b) = String.length a + String.length b.
Proof. induction a as [|c a IH]; [reflexivity|]. rewrite sapp_cons. simpl. by rewrite IH. Qed.

Lemma prefix_length p s : String.prefix p s = true → String.length p ≤ String.length s.
Proof. intros [r ->]%prefix_spec. rewrite slength_app. lia. Qed.

Lemma join_cons2 x y segs :
  Str.join (x :: y :: segs) = x +:+ String Str.slash (Str.join (y :: segs)).
Proof. reflexivity. Qed.

Lemma join_app segs segs' :
  segs ≠ [] → segs' ≠ [] →
  Str.join (segs ++ segs') = Str.join segs +:+ String Str.slash (Str.join segs').
Proof.
  intros Hne Hne'. induction segs as [|x segs IH]; [done|].
  destruct segs as [|y segs].
  - destruct segs' as [|z segs']; [done | reflexivity].
  - change ((x :: y :: segs) ++ segs') with (x :: y :: (segs ++ segs')).
    rewrite !join_cons2.
    change (y :: segs ++ segs') with ((y :: segs) ++ segs').
    rewrite IH by done. by rewrite sapp_assoc.
Qed.

Lemma last_char_join segs :
  segs ≠ [] → Forall plain segs → Str.last_char (Str.join segs) ≠ Some Str.slash.
Proof.
  induction segs as [|x segs IH]; [done|]. intros _ Hall.
  apply Forall_cons in Hall as [Hx Hall].
  destruct segs as [|y segs].
  - apply last_char_no_slash. by destruct Hx as (_ & _ & _ & ?).
  - rewrite join_cons2. rewrite last_char_app by done.
    assert (Hj : Str.join (y :: segs) ≠ "")
      by (apply join_not_empty; [done | by apply plain_not_empty]).
    change (Str.last_char (String Str.slash (Str.join (y :: segs))))
      with (match Str.join (y :: segs) with
            | "" => Some Str.slash
            | _ => Str.last_char (Str.join (y :: segs))
            end).
    destruct (Str.join (y :: segs)) eqn:E; [done|]. by apply IH.
Qed.

Lemma fold_norm_empties b k res :
  fold_left (Path.norm_step b) (replicate k "") res = res.
Proof. induction k as [|k IH]; [reflexivity|]. simpl. exact IH. Qed.

Lemma replicate_slash_free k :
  Forall (λ s, Str.includes_slash s = false) (replicate k "").
Proof. induction k; by constructor. Qed.

(** [k] slashes in front of a path made of ordinary names. *)
Lemma join_leading k segs :
  segs ≠ [] →
  Str.join (replicate (S k) "" ++ segs) = "/" +:+ Str.join (replicate k "" ++ segs).
Proof.
  intros Hne. change (replicate (S k) "" ++ segs) with ("" :: (replicate k "" ++ segs)).
  destruct (replicate k "" ++ segs) as [|y l] eqn:E; [|reflexivity].
  by apply app_eq_nil in E as [_ ?].
Qed.

Lemma strip_leading k segs :
  segs ≠ [] → Forall plain segs →
  Str.startsWith (Str.join segs) "\" = false →
  Str.strip_leading_slashes (Str.join (replicate k "" ++ segs)) = Str.join segs.
Proof.
  intros Hne Hall Hb. induction k as [|k IH].
  - simpl. destruct (Str.join segs) as [|c t] eqn:E; [done|].
    assert (Hc : Ascii.eqb c Str.slash = false).
    { destruct segs as [|x segs]; [done|]. apply Forall_cons in Hall as [Hx _].
      destruct Hx as (Hx1 & _ & _ & Hx4).
      destruct x as [|d x]; [done|].
      assert (c = d) as ->.
      { destruct segs; [by injection E | rewrite join_cons2, sapp_cons in E; by injection E]. }
      simpl in Hx4. by destruct (Ascii.eqb d Str.slash). }
    simpl. rewrite Hc. simpl.
    destruct (Ascii.eqb c Str.backslash) eqn:Hbs; [|done].
    apply Ascii.eqb_eq in Hbs as ->. unfold Str.startsWith in Hb. simpl in Hb.
    destruct t; discriminate.
  - rewrite join_leading by done.
    change ("/" +:+ Str.join (replicate k "" ++ segs))
      with (String Str.slash (Str.join (replicate k "" ++ segs))).
    simpl. exact IH.
Qed.

(** Normalizing a path made of ordinary names after any number of slashes. *)
Lemma normalize_ordinary k segs :
  segs ≠ [] → Forall plain segs →
  Path.normalize (Str.join (replicate k "" ++ segs))
    = Str.join (replicate (Nat.min k 1) "" ++ segs).
Proof.
  intros Hne Hall.
  assert (Hnel : replicate k "" ++ segs ≠ []) by (intros [_ ?]%app_eq_nil; done).
  assert (Hsplit : Str.split (Str.join (replicate k "" ++ segs)) = replicate k "" ++ segs).
  { apply split_join; [done|]. apply Forall_app. split;
      [apply replicate_slash_free | by apply plain_slash_free]. }
  assert (Hnorm : ∀ b, Path.normalizeString b (replicate k "" ++ segs) = segs).
  { intros b. unfold Path.normalizeString.
    rewrite fold_left_app, fold_norm_empties, fold_norm_plain by done.
    rewrite app_nil_r. apply rev_involutive. }
  assert (Hbody : Str.join segs ≠ "")
    by (apply join_not_empty; [done | by apply plain_not_empty]).
  assert (Htrail : Path.trailingSeparator (Str.join (replicate k "" ++ segs)) = false).
  { unfold Path.trailingSeparator. apply bool_decide_eq_false.
    destruct k as [|k]; [by apply last_char_join|].
    rewrite join_app by (done || by destruct k).
    rewrite last_char_app by done.
    change (Str.last_char (String Str.slash (Str.join segs)))
      with (match Str.join segs with
            | "" => Some Str.slash
            | _ => Str.last_char (Str.join segs)
            end).
    destruct (Str.join segs) eqn:E; [done|]. rewrite <- E. by apply last_char_join. }
  unfold Path.normalize.
  destruct (decide (Str.join (replicate k "" ++ segs) = "")) as [E|_].
  { destruct k; [done|]. rewrite join_leading in E by done. discriminate. }
  rewrite Hsplit, Hnorm, Htrail. rewrite decide_False by done.
  destruct k as [|k].
  - change (replicate 0 "" ++ segs) with segs.
    change (replicate (0 `min` 1) "" ++ segs) with segs.
    destruct (Path.isAbsolute (Str.join segs)) eqn:Habs; [|done].
    apply isAbsolute_spec in Habs as [r Hr].
    destruct segs as [|x segs]; [done|]. apply Forall_cons in Hall as [Hx _].
    destruct Hx as (Hx1 & _ & _ & Hx4). destruct x as [|d x]; [done|].
    assert (d = Str.slash) as ->.
    { destruct segs; [by injection Hr | rewrite join_cons2, sapp_cons in Hr; by injection Hr]. }
    simpl in Hx4. done.
  - assert (Path.isAbsolute (Str.join (replicate (S k) "" ++ segs)) = true) as ->.
    { apply isAbsolute_spec. eexists. by apply join_leading. }
    replace (S k `min` 1) with 1 by lia.
    change (replicate 1 "" ++ segs) with ("" :: segs).
    cbn [negb]. destruct segs; [done | reflexivity].
Qed.

(** Joining a path of ordinary names onto a normalized absolute path. *)
Lemma join_ordinary p segs :
  abs_normal p → segs ≠ [] → Forall plain segs →
  Path.join [p; Str.join segs] = p +:+ "/" +:+ Str.join segs.
Proof.
  intros (bsegs & Hbne & Hball & ->) Hne Hall.
  assert (Hbody : Str.join segs ≠ "")
    by (apply join_not_empty; [done | by apply plain_not_empty]).
  unfold Path.join.
  rewrite !filter_cons_True, filter_nil by done.
  change (Str.join ["/" +:+ Str.join bsegs; Str.join segs])
    with (("/" +:+ Str.join bsegs) +:+ String Str.slash (Str.join segs)).
  rewrite sapp_assoc. rewrite <- join_app by done.
  change ("/" +:+ Str.join (bsegs ++ segs))
    with ("" +:+ String Str.slash (Str.join (bsegs ++ segs))).
  rewrite <- (join_app [""]) by (done || by destruct bsegs).
  change ([""] ++ bsegs ++ segs) with (replicate 1 "" ++ (bsegs ++ segs)).
  rewrite normalize_ordinary; [|by destruct bsegs|by apply Forall_app].
  change (replicate (1 `min` 1) "" ++ bsegs ++ segs)
    with (replicate 1 "" ++ (bsegs ++ segs)).
  rewrite join_leading by (by destruct bsegs).
  change (replicate 0 "" ++ bsegs ++ segs) with (bsegs ++ segs).
  rewrite join_app by done.
  change (String Str.slash (Str.join segs)) with ("/" +:+ Str.join segs).
  by rewrite !sapp_assoc.
Qed.

Lemma abs_normal_as_join p :
  abs_normal p ↔ ∃ segs, segs ≠ [] ∧ Forall plain segs ∧
                          p = Str.join (replicate 1 "" ++ segs).
Proof.
  split; intros (segs & Hne & Hall & ->); exists segs; (split; [done|]); (split; [done|]).
  - by rewrite join_leading.
  - by rewrite join_leading.
Qed.

Lemma normalize_abs_normal p : abs_normal p → Path.normalize p = p.
Proof.
  intros (segs & Hne & Hall & ->)%abs_normal_as_join.
  by rewrite normalize_ordinary.
Qed.

Lemma slash_free_not_absolute s :
  Str.includes_slash s = false → Path.isAbsolute s = false.
Proof.
  intros Hs. destruct (Path.isAbsolute s) eqn:E; [|done].
  apply isAbsolute_spec in E as [r ->]. simpl in Hs. done.
Qed.

(** Normalizing a single segment. *)
Lemma normalize_segment s :
  Str.includes_slash s = false →
  Path.normalize s = if decide (s = "" ∨ s = ".") then "." else s.
Proof.
  intros Hs. unfold Path.normalize.
  destruct (decide (s = "")) as [->|Hne]; [done|].
  rewrite split_no_slash, slash_free_not_absolute by done.
  assert (Path.trailingSeparator s = false) as ->.
  { apply bool_decide_eq_false. by apply last_char_no_slash. }
  unfold Path.normalizeString, Path.norm_step. cbn [negb fold_left].
  destruct (decide (s = "" ∨ s = ".")) as [[?| ->]|Hn]; [done|done|].
  destruct (decide (s = "..")) as [->|Hdd]; [done|].
  cbn [rev app Str.join]. by rewrite decide_False.
Qed.

Lemma strip_slash_free s :
  Str.includes_slash s = false →
  Str.includes_slash (Str.strip_leading_slashes s) = false.
Proof.
  induction s as [|c s IH]; [done|]. intros Hs. simpl in Hs |- *.
  destruct (Ascii.eqb c Str.slash) eqn:Hc; [done|]. simpl.
  destruct (Ascii.eqb c Str.backslash); [by apply IH|]. simpl. by rewrite Hc.
Qed.

(** Joining one segment onto a normalized absolute path. *)
Lemma join_segment bsegs t :
  bsegs ≠ [] → Forall plain bsegs → Str.includes_slash t = false → t ≠ "" →
  Path.join ["/" +:+ Str.join bsegs; t] =
    match rev (Path.norm_step false (rev bsegs) t) with
    | [] => "/"
    | res => "/" +:+ Str.join res
    end.
Proof.
  intros Hne Hall Ht Htne. unfold Path.join.
  rewrite !filter_cons_True, filter_nil by done.
  change (Str.join ["/" +:+ Str.join bsegs; t])
    with (("/" +:+ Str.join bsegs) +:+ String Str.slash t).
  set (res := rev (Path.norm_step false (rev bsegs) t)).
  assert (Hres : Forall plain res).
  { apply Forall_rev, norm_step_keeps_plain; [done | by apply Forall_rev]. }
  unfold Path.normalize.
  rewrite decide_False by (by intros [? _]%sapp_eq_empty).
  assert (Path.isAbsolute (("/" +:+ Str.join bsegs) +:+ String Str.slash t) = true) as ->.
  { apply isAbsolute_spec. eexists. by rewrite sapp_assoc. }
  assert (Path.trailingSeparator (("/" +:+ Str.join bsegs) +:+ String Str.slash t) = false)
    as ->.
  { apply bool_decide_eq_false.
    change (String Str.slash t) with ("/" +:+ t). rewrite <- sapp_assoc.
    rewrite last_char_app by done. by apply last_char_no_slash. }
  rewrite split_app_slash.
  change ("/" +:+ Str.join bsegs) with (String Str.slash (Str.join bsegs)).
  change (Str.split (String Str.slash (Str.join bsegs)))
    with ("" :: Str.split (Str.join bsegs)).
  rewrite split_join by (done || by apply plain_slash_free).
  rewrite split_no_slash by done. cbn [negb].
  assert (Path.normalizeString false (("" :: bsegs) ++ [t]) = res) as ->.
  { unfold Path.normalizeString. rewrite fold_left_app. cbn [fold_left].
    change (Path.norm_step false [] "") with (@nil string).
    rewrite fold_norm_plain by done. by rewrite app_nil_r. }
  destruct res as [|r0 res'] eqn:E; [done|].
  rewrite decide_False; [done|].
  apply join_not_empty; [done | by apply plain_not_empty].
Qed.

(** Where one segment can lead from a normalized absolute base: nowhere
    the base is a prefix of, the base itself, or a direct child. *)
Lemma resolve_segment base t :
  abs_normal base → Str.includes_slash t = false →
  Str.startsWith (Path.join [base; t]) base = false ∨
  Path.join [base; t] = base ∨
  ∃ n, plain n ∧ Path.join [base; t] = base +:+ "/" +:+ n.
Proof.
  intros Hbase Ht. destruct (decide (t = "")) as [->|Hne].
  { right; left. unfold Path.join. rewrite filter_cons_True.
    - rewrite filter_cons_False, filter_nil by (by intros ?).
      by apply normalize_abs_normal.
    - destruct Hbase as (? & _ & _ & ->). done. }
  assert (Hb := Hbase). destruct Hb as (bsegs & Hbne & Hball & ->).
  rewrite join_segment by done. unfold Path.norm_step.
  destruct (decide (t = "" ∨ t = ".")) as [_|Hn].
  { right; left. rewrite rev_involutive. by destruct bsegs. }
  destruct (decide (t = "..")) as [->|Hdd].
  - left. destruct (rev bsegs) as [|top below] eqn:Erev.
    { apply (f_equal (λ l, rev l)) in Erev; cbn beta in Erev. rewrite rev_involutive in Erev. done. }
    assert (Hbs : bsegs = rev below ++ [top]).
    { apply (f_equal (λ l, rev l)) in Erev; cbn beta in Erev. by rewrite rev_involutive in Erev. }
    assert (Htop : plain top).
    { rewrite Hbs in Hball. apply Forall_app in Hball as [_ Ht'].
      by apply Forall_cons in Ht' as [? _]. }
    rewrite decide_False by (by destruct Htop as (_ & _ & ? & _)).
    apply not_true_is_false. intros Hp%prefix_length. revert Hp.
    assert (Htl : 0 < String.length top).
    { destruct Htop as (? & _). destruct top; [done | simpl; lia]. }
    rewrite Hbs. destruct (rev below) as [|r0 res'] eqn:E.
    + change (Str.join ([] ++ [top])) with top.
      rewrite slength_app. simpl. lia.
    + rewrite join_app by done. rewrite !slength_app.
      change (String.length (String Str.slash (Str.join [top])))
        with (S (String.length top)).
      lia.
  - right; right. exists t. split; [repeat split; naive_solver|].
    cbn [rev]. rewrite rev_involutive.
    destruct (bsegs ++ [t]) eqn:E; [by destruct bsegs|]. rewrite <- E.
    rewrite join_snoc by done. by rewrite sapp_assoc.
Qed.

(** What [safeJoin] does with a single segment. *)
Lemma safeJoin_single base s :
  abs_normal base → Str.includes_slash s = false →
  safeJoin base s = Throw "Invalid path" ∨
  safeJoin base s = Ok base ∨
  ∃ n, plain n ∧ safeJoin base s = Ok (base +:+ "/" +:+ n).
Proof.
  intros Hbase Hs. unfold safeJoin.
  set (t := Str.strip_leading_slashes (Path.normalize s)).
  assert (Ht : Str.includes_slash t = false).
  { apply strip_slash_free. rewrite normalize_segment by done.
    by destruct (decide (s = "" ∨ s = ".")). }
  destruct (resolve_segment base t Hbase Ht) as [H|[H|(n & Hn & H)]]; rewrite H.
  - by left.
  - right; left. unfold Str.startsWith. rewrite (proj2 (prefix_spec base base)); [done|].
    exists "". by rewrite sapp_empty_r.
  - right; right. exists n. split; [done|]. by rewrite startsWith_app.
Qed.

Lemma safeJoin_ordinary base segs k :
  abs_normal base → segs ≠ [] → Forall plain segs →
  Str.startsWith (Str.join segs) "\" = false →
  safeJoin base (Str.join (replicate k "" ++ segs))
    = Ok (base +:+ "/" +:+ Str.join segs).
Proof.
  intros Hbase Hne Hall Hb. unfold safeJoin.
  rewrite normalize_ordinary, strip_leading, join_ordinary by done.
  by rewrite startsWith_app.
Qed.

End SafeJoinFacts.

(** X1.  For a base in normal form and a path made of ordinary names
    separated by slashes, the first not starting with a backslash,
    [safeJoin] succeeds and returns the base, a slash and the path; any
    number of slashes in front of the path changes nothing. *)
Theorem safeJoin_ordinary_path base segs k :
  abs_normal base → segs ≠ [] → Forall plain segs →
  Str.startsWith (Str.join segs) "\" = false →
  safeJoin base (Str.join (replicate k "" ++ segs))
    = Ok (base +:+ "/" +:+ Str.join segs).
Proof. apply safeJoin_ordinary. Qed.

Lemma safeJoin_ordinary_path_witness :
  safeJoin "/srv/app/uploads" "//docs/sub/b.txt" = Ok "/srv/app/uploads/docs/sub/b.txt".
Proof.
  apply (safeJoin_ordinary_path "/srv/app/uploads" ["docs"; "sub"; "b.txt"] 2).
  - exists ["srv"; "app"; "uploads"]. repeat split; repeat constructor; done.
  - done.
  - repeat constructor; done.
  - reflexivity.
Defined.

(** X2.  A single segment never leaves a base in normal form: [safeJoin]
    refuses it, or returns the base itself, or returns a direct child of
    the base with an ordinary name. *)
Theorem safeJoin_segment_contained base s :
  abs_normal base → Str.includes_slash s = false →
  safeJoin base s = Throw "Invalid path" ∨
  safeJoin base s = Ok base ∨
  ∃ n, plain n ∧ safeJoin base s = Ok (base +:+ "/" +:+ n).
Proof. apply safeJoin_single. Qed.

Lemma safeJoin_segment_contained_witness :
  safeJoin "/srv/app/uploads" ".." = Throw "Invalid path" ∨
  safeJoin "/srv/app/uploads" ".." = Ok "/srv/app/uploads" ∨
  ∃ n, plain n ∧ safeJoin "/srv/app/uploads" ".." = Ok ("/srv/app/uploads" +:+ "/" +:+ n).
Proof.
  apply (safeJoin_segment_contained "/srv/app/uploads" "..").
  - exists ["srv"; "app"; "uploads"]. repeat split; repeat constructor; done.
  - reflexivity.
Defined.

(** ** Compaction, branch by branch *)

Section CompactionFacts.

Variable dirname : string.
Variable env : Env.
Hypothesis dirname_absolute : Path.isAbsolute dirname = true.

Local Abbreviation U := (UPLOADS_DIR dirname).

Lemma suffix_differs d suffix : suffix ≠ "" → d ≠ d +:+ suffix.
Proof.
  intros Hs E. apply (f_equal String.length) in E. rewrite slength_app in E.
  destruct suffix; [done|]. simpl in E. lia.
Qed.

(** The archive of a folder with an ordinary name lies beside the folder,
    not in it. *)
Lemma zip_beside_folder d :
  plain d → at_or_under (Path.join [U; d]) (Path.join [U; d +:+ ".zip"]) = false.
Proof.
  intros Hd. assert (Hds : Str.includes_slash d = false) by by destruct Hd as (_ & _ & _ & ?).
  assert (Hz : plain (d +:+ ".zip")) by (apply plain_suffix; [done..|simpl; lia]).
  apply not_true_is_false. intros (x & Hx & Heq)%at_or_under_spec.
  rewrite !child_path in Heq by done.
  rewrite <- (sapp_empty_r (U +:+ "/" +:+ d +:+ ".zip")) in Heq.
  apply sibling_apart in Heq as [Heq _];
    [|by destruct Hz as (_ & _ & _ & ?)|done|by left|done].
  symmetry in Heq. by apply suffix_differs in Heq.
Qed.

(** The path of a folder with an ordinary name is its own key. *)
Lemma folder_settled d : plain d → wants_directory (Path.join [U; d]) = false.
Proof. intros Hd. rewrite child_path by done. by apply child_settled. Qed.

Lemma compactDirectory_compacts_run d w :
  let folderPath := Path.join [U; d] in
  let zipPath := Path.join [U; d +:+ ".zip"] in
  plain d →
  files w !! folderPath = Some Dir →
  files w !! zipPath = None →
  archive_of env folderPath = Closes →
  remove_error env folderPath = None →
  ∃ w', compactDirectory dirname env d w = (Ok (Compacted d), w') ∧
        files w' !! zipPath
          = Some (File (Zip true (archive_entries folderPath (files w)))) ∧
        (∀ k, at_or_under folderPath k = true → files w' !! k = None) ∧
        (∀ k, at_or_under folderPath k = false → k ≠ zipPath →
              files w' !! k = files w !! k) ∧
        trace w' = trace w ++ [EvArchiveClose zipPath folderPath; EvRemove folderPath].
Proof.
  intros folderPath zipPath Hd Hdir Hzip Harch Hrm.
  pose proof (folder_settled d Hd) as Hset. fold folderPath in Hset.
  rewrite compactDirectory_eq. fold folderPath zipPath.
  rewrite fs_at_settled, Hdir, Hzip by done. cbn [is_directory negb].
  rewrite bool_decide_eq_false_2 by (by intros [? ?]).
  rewrite createArchive_cases, Harch, remove_succeeds by done.
  rewrite node_key_settled by done.
  eexists. split; [reflexivity|]. cbn [files trace].
  split; [|split; [|split]].
  - rewrite fs_remove_lookup. unfold folderPath, zipPath.
    rewrite zip_beside_folder by done. by rewrite lookup_insert_eq.
  - intros k Hk. by rewrite fs_remove_lookup, Hk.
  - intros k Hk Hkz. rewrite fs_remove_lookup, Hk. by rewrite lookup_insert_ne.
  - by rewrite <- app_assoc.
Qed.

Lemma compactDirectory_reclaims_run d w nd :
  let folderPath := Path.join [U; d] in
  let zipPath := Path.join [U; d +:+ ".zip"] in
  plain d →
  files w !! folderPath = Some Dir →
  files w !! zipPath = Some nd →
  remove_error env folderPath = None →
  ∃ w', compactDirectory dirname env d w = (Ok (Removed d true), w') ∧
        files w' !! zipPath = Some nd ∧
        (∀ k, at_or_under folderPath k = true → files w' !! k = None) ∧
        (∀ k, at_or_under folderPath k = false → files w' !! k = files w !! k) ∧
        trace w' = trace w ++ [EvRemove folderPath].
Proof.
  intros folderPath zipPath Hd Hdir Hzip Hrm.
  pose proof (folder_settled d Hd) as Hset. fold folderPath in Hset.
  rewrite compactDirectory_eq. fold folderPath zipPath.
  rewrite fs_at_settled, Hdir, Hzip by done. cbn [is_directory negb].
  rewrite bool_decide_eq_true_2 by (by eexists).
  rewrite remove_succeeds by done.
  eexists. split; [reflexivity|]. cbn [files trace].
  split; [|split; [|split]]; [| | |done].
  - rewrite fs_remove_lookup. unfold folderPath, zipPath.
    by rewrite zip_beside_folder.
  - intros k Hk. by rewrite fs_remove_lookup, Hk.
  - intros k Hk. by rewrite fs_remove_lookup, Hk.
Qed.

End CompactionFacts.

Section SweepOutcomes.

Variable dirname : string.
Variable env : Env.

(** The loop of [compactAll] returns outcomes that come from directory
    entries that are not hidden, at most one per entry, or the process ends
    on an output stream that failed; the loop itself never rejects. *)
Lemma sweep_returns entries results w :
  ∃ r w',
    sweep dirname env entries results w = (r, w') ∧
    ((∃ more,
        r = Ok (results ++ more) ∧
        length more ≤ length entries ∧
        ∀ o, o ∈ more →
             ∃ ent, ent ∈ entries ∧ isDirectory ent = true ∧
                    Str.startsWith (name ent) "." = false ∧
                    outcome_name o = name ent) ∨
     (∃ e folder written,
        r = Crash e ∧ archive_of env folder = StreamFails e written)).
Proof.
  revert results w. induction entries as [|ent entries IH]; intros results w.
  { exists (Ok results), w. split; [done|]. left. exists []. rewrite app_nil_r.
    split; [done|]. split; [done|]. by intros ? ?%elem_of_nil. }
  assert (Hlift : ∀ res v,
    ∃ r w', sweep dirname env entries res v = (r, w') ∧
      ((∃ more, r = Ok (res ++ more) ∧ length more ≤ length (ent :: entries) ∧
          ∀ o, o ∈ more → ∃ e, e ∈ ent :: entries ∧ isDirectory e = true ∧
                 Str.startsWith (name e) "." = false ∧ outcome_name o = name e) ∨
       (∃ e folder written,
          r = Crash e ∧ archive_of env folder = StreamFails e written))).
  { intros res v. destruct (IH res v) as (r & w' & Hrun & Hend). exists r, w'.
    split; [done|]. destruct Hend as [(more & -> & Hlen & Hfrom)|?]; [left | by right].
    exists more. split; [done|]. split; [simpl; lia|].
    intros o Ho. destruct (Hfrom o Ho) as (e & He & ?). exists e. split; [by right | done]. }
  cbn [sweep].
  destruct (isDirectory ent) eqn:Hdir; [|by apply Hlift].
  destruct (Str.startsWith (name ent) ".") eqn:Hdot; [by apply Hlift|].
  unfold bind at 1, pathExists, bind at 1, get_files, ret at 1. cbn beta iota.
  destruct (bool_decide _); [by apply Hlift|].
  unfold bind at 1.
  destruct (compactDirectory_returns dirname env (name ent) w)
    as [(o & Ho & Hname)|(e & written & Ho & Hfail)];
    destruct (compactDirectory dirname env (name ent) w) as [r w1];
    cbn [fst snd] in *; subst r.
  - destruct (IH (results ++ [o]) w1) as (r & w' & Hrun & Hend).
    exists r, w'. split; [done|].
    destruct Hend as [(more & -> & Hlen & Hfrom)|?]; [left | by right].
    exists (o :: more). split; [by rewrite <- app_assoc|].
    split; [simpl in *; lia|].
    intros o' [->|Ho']%elem_of_cons.
    + exists ent. split; [by left | done].
    + destruct (Hfrom o' Ho') as (e & He & ?). exists e. split; [by right | done].
  - exists (Crash e), w1. split; [done|]. right.
    by exists e, (Path.join [UPLOADS_DIR dirname; name ent]), written.
Qed.

End SweepOutcomes.

(** X3.  [compactDirectory] never rejects: in every environment and every
    state of the file system it returns an outcome that carries the name it
    was called with, the one exception being a failure of the archive's
    output stream, on which the process ends inside the call. *)
Theorem compactDirectory_never_throws dirname env dirName w :
  (∃ o, (compactDirectory dirname env dirName w).1 = Ok o ∧
        outcome_name o = dirName) ∨
  (∃ e written,
     (compactDirectory dirname env dirName w).1 = Crash e ∧
     archive_of env (Path.join [UPLOADS_DIR dirname; dirName]) = StreamFails e written).
Proof. apply compactDirectory_returns. Qed.

(** X4.  Called on an existing folder with an ordinary name that has no
    archive yet, with archiving and removal succeeding, [compactDirectory]
    returns [compacted]: the archive path holds a finalized archive of the
    files that were below the folder, nothing is left at or below the
    folder, every other path is untouched, and the archive was closed
    before the folder was removed. *)
Theorem compactDirectory_compacts dirname env dirName w :
  let folderPath := Path.join [UPLOADS_DIR dirname; dirName] in
  let zipPath := Path.join [UPLOADS_DIR dirname; dirName +:+ ".zip"] in
  Path.isAbsolute dirname = true →
  plain dirName →
  files w !! folderPath = Some Dir →
  files w !! zipPath = None →
  archive_of env folderPath = Closes →
  remove_error env folderPath = None →
  ∃ w', compactDirectory dirname env dirName w = (Ok (Compacted dirName), w') ∧
        files w' !! zipPath
          = Some (File (Zip true (archive_entries folderPath (files w)))) ∧
        (∀ k, at_or_under folderPath k = true → files w' !! k = None) ∧
        (∀ k, at_or_under folderPath k = false → k ≠ zipPath →
              files w' !! k = files w !! k) ∧
        trace w' = trace w ++ [EvArchiveClose zipPath folderPath; EvRemove folderPath].
Proof. intros ? ? Habs. by apply compactDirectory_compacts_run. Qed.

Lemma compactDirectory_compacts_witness :
  ∃ w', compactDirectory "/srv/app" calm "docs" docs_world = (Ok (Compacted "docs"), w') ∧
        files w' !! "/srv/app/uploads/docs.zip"
          = Some (File (Zip true (archive_entries "/srv/app/uploads/docs"
                                    (files docs_world)))) ∧
        (∀ k, at_or_under "/srv/app/uploads/docs" k = true → files w' !! k = None) ∧
        (∀ k, at_or_under "/srv/app/uploads/docs" k = false →
              k ≠ "/srv/app/uploads/docs.zip" →
              files w' !! k = files docs_world !! k) ∧
        trace w' = trace docs_world ++
          [EvArchiveClose "/srv/app/uploads/docs.zip" "/srv/app/uploads/docs";
           EvRemove "/srv/app/uploads/docs"].
Proof.
  apply (compactDirectory_compacts "/srv/app" calm "docs" docs_world);
    [reflexivity | repeat split; done | vm_compute; reflexivity..].
Defined.

(** X5.  Called on an existing folder with an ordinary name whose archive
    path is already taken, with removal succeeding, [compactDirectory]
    returns [removed]: it creates no archive, leaves what is at the archive
    path as it is, removes the folder with everything below it and touches
    nothing else. *)
Theorem compactDirectory_reclaims dirname env dirName w nd :
  let folderPath := Path.join [UPLOADS_DIR dirname; dirName] in
  let zipPath := Path.join [UPLOADS_DIR dirname; dirName +:+ ".zip"] in
  Path.isAbsolute dirname = true →
  plain dirName →
  files w !! folderPath = Some Dir →
  files w !! zipPath = Some nd →
  remove_error env folderPath = None →
  ∃ w', compactDirectory dirname env dirName w = (Ok (Removed dirName true), w') ∧
        files w' !! zipPath = Some nd ∧
        (∀ k, at_or_under folderPath k = true → files w' !! k = None) ∧
        (∀ k, at_or_under folderPath k = false → files w' !! k = files w !! k) ∧
        trace w' = trace w ++ [EvRemove folderPath].
Proof. intros ? ? Habs. by apply compactDirectory_reclaims_run. Qed.

Lemma compactDirectory_reclaims_witness :
  ∃ w', compactDirectory "/srv/app" calm "docs" archived_world
          = (Ok (Removed "docs" true), w') ∧
        files w' !! "/srv/app/uploads/docs.zip" = Some (File (Zip true [])) ∧
        (∀ k, at_or_under "/srv/app/uploads/docs" k = true → files w' !! k = None) ∧
        (∀ k, at_or_under "/srv/app/uploads/docs" k = false →
              files w' !! k = files archived_world !! k) ∧
        trace w' = trace archived_world ++ [EvRemove "/srv/app/uploads/docs"].
Proof.
  apply (compactDirectory_reclaims "/srv/app" calm "docs" archived_world
           (File (Zip true [])));
    [reflexivity | repeat split; done | vm_compute; reflexivity..].
Defined.

(** X6.  Failures stay inside their folder: whenever the uploads root can
    be listed, [compactAll] returns its list of outcomes however many
    archiver errors or removals fail; there is at most one outcome per
    entry, and each outcome names an entry of the root that is a directory
    and whose name does not start with a dot.  The one failure that is not
    contained is that of an archive's output stream, which ends the
    process. *)
Theorem compactAll_isolates_failures dirname env w :
  files w !! UPLOADS_DIR dirname = Some Dir →
  ∃ r w',
    compactAll dirname env w = (r, w') ∧
    ((∃ results,
        r = Ok results ∧
        length results ≤ length (listing (UPLOADS_DIR dirname) (files w)) ∧
        ∀ o, o ∈ results →
             ∃ ent, ent ∈ listing (UPLOADS_DIR dirname) (files w) ∧
                    isDirectory ent = true ∧
                    Str.startsWith (name ent) "." = false ∧
                    outcome_name o = name ent) ∨
     (∃ e folder written,
        r = Crash e ∧ archive_of env folder = StreamFails e written)).
Proof.
  intros Hroot. unfold compactAll, readdir.
  unfold bind at 1, bind at 1, get_files. cbn beta iota.
  rewrite fs_at_settled, Hroot by apply UPLOADS_DIR_settled. cbn [is_directory].
  unfold ret at 1. cbn beta iota.
  rewrite node_key_settled by apply UPLOADS_DIR_settled.
  destruct (sweep_returns dirname env (listing (UPLOADS_DIR dirname) (files w)) [] w)
    as (r & w' & Hrun & Hend).
  by exists r, w'.
Qed.

Lemma compactAll_isolates_failures_witness :
  ∃ r w',
    compactAll "/srv/app" flaky locked_world = (r, w') ∧
    ((∃ results,
        r = Ok results ∧
        length results ≤ length (listing (UPLOADS_DIR "/srv/app") (files locked_world)) ∧
        ∀ o, o ∈ results →
             ∃ ent, ent ∈ listing (UPLOADS_DIR "/srv/app") (files locked_world) ∧
                    isDirectory ent = true ∧
                    Str.startsWith (name ent) "." = false ∧
                    outcome_name o = name ent) ∨
     (∃ e folder written,
        r = Crash e ∧ archive_of flaky folder = StreamFails e written)).
Proof.
  apply (compactAll_isolates_failures "/srv/app" flaky locked_world).
  vm_compute. reflexivity.
Defined.

(** The sweep over a root that holds a folder whose archive cannot be
    opened: the process ends in the middle of the sweep. *)
Example compactAll_stream_failure :
  (compactAll "/srv/app" name_limited long_world).1 = Crash "ENAMETOOLONG".
Proof. vm_compute. reflexivity. Qed.

(** ** The upload handler, mode by mode *)

Section Steady.

Variable dirname : string.
Variable env : Env.

Lemma steady_ret {A} (a : A) : steady (ret a).
Proof. intros w e w'. discriminate. Qed.

Lemma steady_throw {A} e : steady (throw e : IO A).
Proof. intros w e' w'. discriminate. Qed.

Lemma steady_bind {A B} (m : IO A) (k : A → IO B) :
  steady m → (∀ a, steady (k a)) → steady (bind m k).
Proof.
  intros Hm Hk w e w'. unfold bind. specialize (Hm w).
  destruct (m w) as [[a|e1|e1] w1]; [apply Hk | discriminate | by destruct (Hm e1 w1)].
Qed.

Lemma steady_safeJoin base target : steady (lift (safeJoin base target)).
Proof.
  unfold safeJoin. destruct (negb _); [apply steady_throw | apply steady_ret].
Qed.

Lemma steady_ensureDir p : steady (ensureDir env p).
Proof.
  intros w e w'. unfold ensureDir. io_unfold.
  by destruct (write_error env p), (mkdirs (lineage (node_key p)) (files w)).
Qed.

Lemma steady_outputFile p data : steady (outputFile env p data).
Proof.
  intros w e w'. unfold outputFile. io_unfold.
  destruct (write_error env p),
    (mkdirs (removelast (lineage (node_key p))) (files w)) as [fs'|]; try done.
  destruct (Path.trailingSeparator p); [done|]. by destruct (is_directory (fs' !! p)).
Qed.

Lemma steady_remove p : steady (remove env p).
Proof.
  intros w e w'. by destruct (remove_cases env p w) as [[-> _]|(e' & -> & _)].
Qed.

Lemma steady_write_flat fs : steady (write_flat dirname env fs).
Proof.
  induction fs as [|f fs IH]; cbn [write_flat]; [apply steady_ret|].
  apply steady_bind; [apply steady_safeJoin|]. intros p.
  apply steady_bind; [apply steady_outputFile | done].
Qed.

Lemma steady_write_tree baseDir paths i fs : steady (write_tree env baseDir paths i fs).
Proof.
  revert i. induction fs as [|f fs IH]; intros i; cbn [write_tree]; [apply steady_ret|].
  apply steady_bind; [apply steady_safeJoin|]. intros p.
  apply steady_bind; [apply steady_outputFile | done].
Qed.

(** A folder upload ends the process only through the output stream of
    its archive. *)
Lemma upload_folder_crash paths fs now w e w' :
  upload_folder dirname env paths fs now w = (Crash e, w') →
  ∃ written,
    archive_of env (Path.join [UPLOADS_DIR dirname; baseName paths now])
      = StreamFails e written.
Proof.
  unfold upload_folder.
  set (baseDir := Path.join [UPLOADS_DIR dirname; baseName paths now]).
  set (zipPath := Path.join [UPLOADS_DIR dirname; baseName paths now +:+ ".zip"]).
  unfold bind at 1. pose proof (steady_ensureDir baseDir w) as H1.
  destruct (ensureDir env baseDir w) as [[[]|e1|e1] w1];
    [|discriminate|by destruct (H1 e1 w1)].
  unfold bind at 1. pose proof (steady_write_tree baseDir paths 0 fs w1) as H2.
  destruct (write_tree env baseDir paths 0 fs w1) as [[[]|e2|e2] w2];
    [|discriminate|by destruct (H2 e2 w2)].
  unfold bind at 1. rewrite createArchive_cases.
  destruct (archive_of env baseDir) as [|e3 n|e3 n]; [|discriminate|].
  - unfold bind at 1, try_catch.
    match goal with |- context [remove env ?p ?v] =>
      destruct (remove_cases env p v) as [[-> _]|(e' & -> & _)] end; discriminate.
  - intros [= <- _]. by exists n.
Qed.

End Steady.

Section UploadFacts.

Variable dirname : string.
Variable env : Env.

Local Abbreviation U := (UPLOADS_DIR dirname).

(** A root name can only come from a path with a slash. *)
Lemma rootFromPaths_nested paths r :
  rootFromPaths paths = Some r → hasNested paths = true.
Proof.
  unfold rootFromPaths, hasNested.
  destruct (filter (λ p, p ≠ "") paths) as [|first rest] eqn:E; [discriminate|].
  rewrite getRootName_first.
  destruct (Str.includes_slash first) eqn:Hs; [|discriminate]. intros _.
  apply existsb_exists. exists first. split; [|done].
  apply list_elem_of_In. assert (Hin : first ∈ filter (λ p, p ≠ "") paths)
    by (rewrite E; by left).
  by apply list_elem_of_filter in Hin as [_ ?].
Qed.

Lemma flat_test paths :
  negb (hasNested paths) && negb (truthy (rootFromPaths paths))
    = negb (hasNested paths).
Proof.
  destruct (hasNested paths) eqn:Hn; [done|]. cbn [negb andb].
  destruct (rootFromPaths paths) as [r|] eqn:Hr; [|done].
  apply rootFromPaths_nested in Hr. congruence.
Qed.

Lemma upload_folder_status paths fs now w r w' :
  upload_folder dirname env paths fs now w = (Ok r, w') →
  r = {| status := 200; body := UploadedFolder (baseName paths now) |}.
Proof.
  unfold upload_folder. intros E.
  repeat (apply bind_ok in E as (? & ? & _ & E)).
  unfold ret in E. congruence.
Qed.

Lemma upload_responds field fs now w :
  (∃ r w',
     upload dirname env field fs now w = (Ok r, w') ∧
     (status r = 400 ↔ fs = []) ∧
     (status r = 400 → w' = w ∧ body r = NoFilesUploaded) ∧
     (status r = 200 →
        (hasNested (paths_of field) = false ∧
         body r = UploadedFiles (map (λ f, Path.basename (originalname f)) fs)) ∨
        (hasNested (paths_of field) = true ∧
         body r = UploadedFolder (baseName (paths_of field) now))) ∧
     (status r = 200 ∨ status r = 400 ∨ status r = 500)) ∨
  (∃ e written w',
     upload dirname env field fs now w = (Crash e, w') ∧
     fs ≠ [] ∧ hasNested (paths_of field) = true ∧
     archive_of env (Path.join [U; baseName (paths_of field) now])
       = StreamFails e written).
Proof.
  unfold upload, try_catch. rewrite flat_test.
  destruct (decide (length fs = 0)) as [Hlen|Hlen].
  { left. io_unfold. do 2 eexists. split; [reflexivity|]. cbn [status body].
    split; [split; [intros _; by destruct fs | done]|].
    split; [done|]. split; [done|]. by right; left. }
  assert (Hfs : fs ≠ []) by (intros ->; done).
  assert (H500 : ∀ w1 : World,
    (status {| status := 500; body := UploadFailed |} = 400 ↔ fs = []) ∧
    (status {| status := 500; body := UploadFailed |} = 400 →
       w1 = w ∧ body {| status := 500; body := UploadFailed |} = NoFilesUploaded) ∧
    (status {| status := 500; body := UploadFailed |} = 200 →
       (hasNested (paths_of field) = false ∧
        body {| status := 500; body := UploadFailed |}
          = UploadedFiles (map (λ f, Path.basename (originalname f)) fs)) ∨
       (hasNested (paths_of field) = true ∧
        body {| status := 500; body := UploadFailed |}
          = UploadedFolder (baseName (paths_of field) now))) ∧
    (status {| status := 500; body := UploadFailed |} = 200 ∨
     status {| status := 500; body := UploadFailed |} = 400 ∨
     status {| status := 500; body := UploadFailed |} = 500)).
  { intros w1. cbn [status body]. split; [split; [done | by intros ?]|].
    split; [done|]. split; [done|]. by right; right. }
  destruct (hasNested (paths_of field)) eqn:Hn; cbn [negb].
  - destruct (upload_folder dirname env (paths_of field) fs now w) as [[r|e|e] w1] eqn:E.
    + left. apply upload_folder_status in E as ->. do 2 eexists. split; [reflexivity|].
      cbn [status body]. split; [split; [done | by intros ?]|].
      split; [done|]. split; [intros _; by right | by left].
    + left. io_unfold. do 2 eexists. split; [reflexivity | apply H500].
    + right. apply upload_folder_crash in E as [written Hfail]. by exists e, written, w1.
  - pose proof (steady_bind _ (λ _ : (),
                   ret {| status := 200;
                          body := UploadedFiles
                                    (map (λ f, Path.basename (originalname f)) fs) |})
                  (steady_write_flat dirname env fs) (λ _, steady_ret _) w) as Hsteady.
    match goal with |- context [bind ?m ?k w] =>
      destruct (bind m k w) as [[r|e|e] w1] eqn:E end.
    + left. apply bind_ok in E as (? & ? & _ & E). unfold ret in E. injection E as <- <-.
      do 2 eexists. split; [reflexivity|].
      cbn [status body]. split; [split; [done | by intros ?]|].
      split; [done|]. split; [intros _; by left | by left].
    + left. io_unfold. do 2 eexists. split; [reflexivity | apply H500].
    + by destruct (Hsteady e w1).
Qed.

End UploadFacts.

(** X7.  The upload handler always answers, unless the output stream of
    the folder's archive fails, which ends the process before any answer;
    it never rejects.  The status is 400 exactly when the request carries
    no file, and then nothing is changed; a 200 names the uploaded files
    when no path contains a slash and the folder otherwise; every other
    answer is a 500.  A flat upload always gets its answer. *)
Theorem upload_always_responds dirname env field fs now w :
  (∃ r w',
     upload dirname env field fs now w = (Ok r, w') ∧
     (status r = 400 ↔ fs = []) ∧
     (status r = 400 → w' = w ∧ body r = NoFilesUploaded) ∧
     (status r = 200 →
        (hasNested (paths_of field) = false ∧
         body r = UploadedFiles (map (λ f, Path.basename (originalname f)) fs)) ∨
        (hasNested (paths_of field) = true ∧
         body r = UploadedFolder (baseName (paths_of field) now))) ∧
     (status r = 200 ∨ status r = 400 ∨ status r = 500)) ∨
  (∃ e written w',
     upload dirname env field fs now w = (Crash e, w') ∧
     fs ≠ [] ∧ hasNested (paths_of field) = true ∧
     archive_of env (Path.join [UPLOADS_DIR dirname; baseName (paths_of field) now])
       = StreamFails e written).
Proof. apply upload_responds. Qed.

(** The request of 252 characters: the folder is made and written, the
    archive's name is too long, and the process ends without an answer. *)
Example upload_long_name :
  let run := upload "/srv/app" name_limited (PathsArray [long_name +:+ "/a.txt"])
               [ {| originalname := "a.txt"; buffer := "hello" |} ] 0 fresh_world in
  run.1 = Crash "ENAMETOOLONG" ∧
  trace run.2 =
    [EvMkdir ("/srv/app/uploads/" +:+ long_name);
     EvWrite ("/srv/app/uploads/" +:+ long_name +:+ "/a.txt") "hello";
     EvArchiveError ("/srv/app/uploads/" +:+ long_name +:+ ".zip")
       ("/srv/app/uploads/" +:+ long_name) "ENAMETOOLONG"].
Proof. split; vm_compute; reflexivity. Qed.

Section FlatUpload.

Variable dirname : string.
Variable env : Env.
Hypothesis dirname_absolute : Path.isAbsolute dirname = true.

Local Abbreviation U := (UPLOADS_DIR dirname).

Lemma basename_slash_free p : Str.includes_slash (Path.basename p) = false.
Proof.
  unfold Path.basename.
  destruct (filter (λ s, s ≠ "") (rev (Str.split p))) as [|seg rest] eqn:E; [done|].
  assert (Hin : seg ∈ filter (λ s, s ≠ "") (rev (Str.split p))) by (rewrite E; by left).
  apply list_elem_of_filter in Hin as [_ Hin].
  apply list_elem_of_In, in_rev, list_elem_of_In in Hin.
  pose proof (split_slash_free p) as Hall.
  rewrite Forall_forall in Hall. by apply Hall.
Qed.

Lemma mkdirs_keeps_dirs ps (fs fs' : FS) k :
  mkdirs ps fs = Some fs' → fs !! k = Some Dir → fs' !! k = Some Dir.
Proof.
  revert fs. induction ps as [|a ps IH]; intros fs; simpl; [by intros [= <-]|].
  destruct (fs !! a) as [[c|]|] eqn:Ha; [discriminate|..]; intros Hm Hk;
    apply (IH _ Hm); (destruct (decide (a = k)) as [->|];
      [by rewrite lookup_insert_eq | by rewrite lookup_insert_ne]).
Qed.

(** How [outputFile] ends: it throws, having at most made directories,
    or it writes the file and records the write; directories that existed
    still exist. *)
Lemma outputFile_cases p data w :
  (∃ e w', outputFile env p data w = (Throw e, w') ∧
           trace w' = trace w ∧
           ∀ k, files w !! k = Some Dir → files w' !! k = Some Dir) ∨
  (∃ w', outputFile env p data w = (Ok tt, w') ∧
         trace w' = trace w ++ [EvWrite p data] ∧
         files w' !! p = Some (File (Raw data)) ∧
         is_directory (files w !! p) = false ∧
         ∀ k, files w !! k = Some Dir → files w' !! k = Some Dir).
Proof.
  unfold outputFile. io_unfold.
  destruct (write_error env p) as [e|]; [left; by exists e, w|].
  destruct (mkdirs (removelast (lineage (node_key p))) (files w)) as [fs'|] eqn:Hm;
    [|left; by eexists _, w].
  destruct (Path.trailingSeparator p); io_unfold.
  { left. eexists _, _. split; [reflexivity|]. cbn [files trace]. split; [done|].
    intros k Hk. by apply (mkdirs_keeps_dirs _ _ _ _ Hm). }
  destruct (is_directory (fs' !! p)) eqn:Hd; io_unfold; [left; by eexists _, w|].
  right. eexists. split; [reflexivity|]. cbn [files trace].
  split; [done|]. split; [by rewrite lookup_insert_eq|]. split.
  - destruct (files w !! p) as [[c|]|] eqn:Hp; [done| |done].
    by rewrite (mkdirs_keeps_dirs _ _ _ _ Hm Hp) in Hd.
  - intros k Hk. pose proof (mkdirs_keeps_dirs _ _ _ _ Hm Hk) as Hk'.
    destruct (decide (p = k)) as [->|]; [by rewrite Hk' in Hd|].
    by rewrite lookup_insert_ne.
Qed.

Lemma write_flat_children fs w :
  files w !! U = Some Dir →
  ∃ new, trace (write_flat dirname env fs w).2 = trace w ++ new ∧
         Forall (child_write U) new.
Proof.
  revert w. induction fs as [|f fs IH]; intros w Hroot.
  { exists []. by rewrite app_nil_r. }
  cbn [write_flat].
  destruct (safeJoin_single U (Path.basename (originalname f)))
    as [H|[H|(n & Hn & H)]];
    [by apply UPLOADS_DIR_normal | apply basename_slash_free | rewrite H..];
    unfold bind, lift, ret, throw; cbn beta iota.
  - exists []. by rewrite app_nil_r.
  - destruct (outputFile_cases U (buffer f) w)
      as [(e & w' & He & Ht & _)|(w' & _ & _ & _ & Hd & _)].
    + rewrite He. exists []. cbn [snd]. by rewrite Ht, app_nil_r.
    + by rewrite Hroot in Hd.
  - destruct (outputFile_cases (U +:+ "/" +:+ n) (buffer f) w)
      as [(e & w' & He & Ht & _)|(w' & He & Ht & _ & _ & Hkeep)]; rewrite He.
    + exists []. cbn [snd]. by rewrite Ht, app_nil_r.
    + destruct (IH w' (Hkeep _ Hroot)) as (new & Hnew & Hall).
      exists (EvWrite (U +:+ "/" +:+ n) (buffer f) :: new).
      split; [by rewrite Hnew, Ht, <- app_assoc|].
      constructor; [by exists n, (buffer f) | done].
Qed.

Lemma upload_flat_children field fs now w :
  files w !! U = Some Dir →
  hasNested (paths_of field) = false →
  ∃ new, trace (upload dirname env field fs now w).2 = trace w ++ new ∧
         Forall (child_write U) new.
Proof.
  intros Hroot Hn. unfold upload, try_catch. rewrite flat_test, Hn. cbn [negb].
  destruct (decide (length fs = 0)).
  { io_unfold. exists []. by rewrite app_nil_r. }
  unfold bind, ret.
  destruct (write_flat_children fs w Hroot) as (new & Hnew & Hall).
  destruct (write_flat dirname env fs w) as [[[]|e|e] w1]; by exists new.
Qed.

End FlatUpload.

(** X8.  A flat upload stays in the uploads root: when no path of the
    request contains a slash, every file the handler writes, in every
    environment and whatever the original names are, goes to a direct child
    of the uploads root with an ordinary name; the handler makes no other
    mutating call. *)
Theorem upload_flat_stays_in_root dirname env field fs now w :
  Path.isAbsolute dirname = true →
  files w !! UPLOADS_DIR dirname = Some Dir →
  hasNested (paths_of field) = false →
  ∃ new, trace (upload dirname env field fs now w).2 = trace w ++ new ∧
         Forall (child_write (UPLOADS_DIR dirname)) new.
Proof. intros. by apply upload_flat_children. Qed.

Lemma upload_flat_stays_in_root_witness :
  ∃ new, trace (upload "/srv/app" calm PathsAbsent
                  [ {| originalname := "../../etc/passwd"; buffer := "x" |};
                    {| originalname := ".."; buffer := "y" |} ] 0 fresh_world).2
           = trace fresh_world ++ new ∧
         Forall (child_write (UPLOADS_DIR "/srv/app")) new.
Proof.
  apply (upload_flat_stays_in_root "/srv/app" calm PathsAbsent); vm_compute; reflexivity.
Defined.

Section FolderUpload.

Variable dirname : string.
Variable env : Env.

Local Abbreviation U := (UPLOADS_DIR dirname).

Lemma createArchive_ok zipPath folder w w' :
  createArchive env zipPath folder w = (Ok tt, w') →
  files w' = <[zipPath := File (Zip true (archive_entries (node_key folder) (files w)))]>
               (files w) ∧
  trace w' = trace w ++ [EvArchiveClose zipPath folder].
Proof.
  rewrite createArchive_cases.
  destruct (archive_of env folder) as [|e n|e n]; [|discriminate..].
  by intros [= <-].
Qed.

(** The removal inside its own [try]: the folder is removed, or the
    failure is swallowed and nothing changes. *)
Lemma remove_caught p w w' :
  try_catch (remove env p) (λ _, ret tt) w = (Ok tt, w') →
  (files w' = fs_remove (node_key p) (files w) ∧
   trace w' = trace w ++ [EvRemove p]) ∨
  (w' = w ∧ (remove_error env p ≠ None ∨ wants_directory p = true)).
Proof.
  unfold try_catch.
  destruct (remove_cases env p w) as [[-> _]|(e & -> & Hwhy)].
  - intros [= <-]. by left.
  - unfold ret. intros [= <-]. right. split; [done|].
    destruct Hwhy as [->|(_ & ? & _)]; [by left | by right].
Qed.

Lemma ensureDir_ok p w w' :
  ensureDir env p w = (Ok tt, w') → trace w' = trace w ++ [EvMkdir p].
Proof.
  unfold ensureDir. io_unfold.
  destruct (write_error env p), (mkdirs (lineage (node_key p)) (files w));
    io_unfold; try discriminate.
  by intros [= <-].
Qed.

(** The writes of the loop of lines 129-138 all go where [safeJoin] says. *)
Lemma write_tree_writes baseDir paths i fs w :
  ∃ writes,
    trace (write_tree env baseDir paths i fs w).2 = trace w ++ writes ∧
    Forall (write_into baseDir) writes.
Proof.
  revert i w. induction fs as [|f fs IH]; intros i w.
  { exists []. by rewrite app_nil_r. }
  cbn [write_tree]. unfold bind at 1.
  destruct (safeJoin baseDir (relative_path paths i f)) as [p|e|e] eqn:Hjoin;
    cbn [lift]; [|exists []; by rewrite app_nil_r..].
  unfold ret at 1. cbn beta iota. unfold bind.
  destruct (outputFile_cases env p (buffer f) w)
    as [(e & w' & He & Ht & _)|(w' & He & Ht & _)]; rewrite He.
  - exists []. cbn [snd]. by rewrite Ht, app_nil_r.
  - destruct (IH (S i) w') as (writes & Hw & Hall).
    exists (EvWrite p (buffer f) :: writes).
    split; [by rewrite Hw, Ht, <- app_assoc|].
    constructor; [|done]. by exists (relative_path paths i f), p, (buffer f).
Qed.

(** All four steps of a folder upload that answers 200. *)
Lemma upload_folder_stages field fs now w w' folder :
  upload dirname env field fs now w
    = (Ok {| status := 200; body := UploadedFolder folder |}, w') →
  let baseDir := Path.join [U; folder] in
  let zipPath := Path.join [U; folder +:+ ".zip"] in
  ∃ w1 w2 w3,
    ensureDir env baseDir w = (Ok tt, w1) ∧
    write_tree env baseDir (paths_of field) 0 fs w1 = (Ok tt, w2) ∧
    createArchive env zipPath baseDir w2 = (Ok tt, w3) ∧
    try_catch (remove env baseDir) (λ _, ret tt) w3 = (Ok tt, w').
Proof.
  intros Hup. pose proof (upload_folder_name _ _ _ _ _ _ _ _ Hup) as ->.
  revert Hup. unfold upload, try_catch at 1.
  destruct (decide (length fs = 0)); [io_unfold; discriminate|].
  match goal with |- context [if ?b then _ else _] => destruct b end.
  - match goal with |- context [bind ?m ?k w] =>
      destruct (bind m k w) as [[r|e|e] w1] eqn:E end;
      [|io_unfold; discriminate..].
    apply bind_ok in E as (? & ? & _ & E). unfold ret in E. congruence.
  - destruct (upload_folder dirname env (paths_of field) fs now w) as [[r|e|e] w1] eqn:E;
      [|io_unfold; discriminate..].
    intros [= _ <-]. unfold upload_folder in E.
    apply bind_ok in E as ([] & wa & Hmk & E).
    apply bind_ok in E as ([] & wb & Hwr & E).
    apply bind_ok in E as ([] & wc & Harch & E).
    apply bind_ok in E as ([] & wd & Hrm & E).
    unfold ret in E. injection E as _ <-.
    by exists wa, wb, wc.
Qed.

(** The mutating calls of a folder upload that answers 200: the folder is
    made, files are written into it, its archive is closed, and the folder
    is removed unless the removal fails. *)
Lemma upload_folder_calls field fs now w w' folder :
  upload dirname env field fs now w
    = (Ok {| status := 200; body := UploadedFolder folder |}, w') →
  let baseDir := Path.join [U; folder] in
  let zipPath := Path.join [U; folder +:+ ".zip"] in
  ∃ writes tail,
    trace w' = trace w ++ EvMkdir baseDir :: writes
                 ++ EvArchiveClose zipPath baseDir :: tail ∧
    Forall (write_into baseDir) writes ∧
    (tail = [] ∨ tail = [EvRemove baseDir]).
Proof.
  intros Hup baseDir zipPath.
  destruct (upload_folder_stages _ _ _ _ _ _ Hup) as (w1 & w2 & w3 & Hmk & Hwr & Har & Hrm).
  fold baseDir zipPath in Hmk, Hwr, Har, Hrm.
  apply ensureDir_ok in Hmk.
  destruct (write_tree_writes baseDir (paths_of field) 0 fs w1) as (writes & Hw & Hall).
  rewrite Hwr in Hw. cbn [snd] in Hw.
  apply createArchive_ok in Har as [_ Har].
  apply remove_caught in Hrm as [[_ Hrm]|[-> _]].
  - exists writes, [EvRemove baseDir]. split; [|by split; [|right]].
    rewrite Hrm, Har, Hw, Hmk. by rewrite <- !app_assoc.
  - exists writes, []. split; [|by split; [|left]].
    rewrite Har, Hw, Hmk. by rewrite <- !app_assoc.
Qed.

(** The folder name is never empty and holds no slash. *)
Lemma digits_slash_free d :
  Str.includes_slash (DecimalString.NilEmpty.string_of_uint d) = false.
Proof. induction d; simpl; done. Qed.

Lemma baseName_segment paths now :
  baseName paths now ≠ "" ∧ Str.includes_slash (baseName paths now) = false.
Proof.
  assert (Hgen : "upload_" +:+ Str.of_N now ≠ "" ∧
                 Str.includes_slash ("upload_" +:+ Str.of_N now) = false).
  { split; [by intros [? _]%sapp_eq_empty|].
    rewrite includes_slash_app. cbn [orb]. change (Str.includes_slash "upload_") with false.
    cbn [orb]. unfold Str.of_N, DecimalString.NilZero.string_of_uint.
    destruct (N.to_uint now); try apply digits_slash_free. reflexivity. }
  unfold baseName, rootFromPaths.
  destruct (getRootName _) as [r|] eqn:Hr; [|done].
  destruct (decide (r = "")); [done|]. split; [done|].
  unfold getRootName in Hr.
  destruct (filter _ paths) as [|first rest]; [discriminate|].
  pose proof (split_slash_free first) as Hall.
  destruct (Str.split first) as [|root [|x tl]]; [discriminate..|].
  injection Hr as <-. by apply Forall_cons in Hall as [? _].
Qed.

Lemma baseDir_settled paths now :
  wants_directory (Path.join [U; baseName paths now]) = false.
Proof.
  destruct (baseName_segment paths now) as [? ?]. by apply join_slash_free_settled.
Qed.

Lemma upload_folder_result field fs now w w' folder :
  Path.isAbsolute dirname = true →
  upload dirname env field fs now w
    = (Ok {| status := 200; body := UploadedFolder folder |}, w') →
  let baseDir := Path.join [U; folder] in
  let zipPath := Path.join [U; folder +:+ ".zip"] in
  (plain folder →
     ∃ entries, files w' !! zipPath = Some (File (Zip true entries))) ∧
  (remove_error env baseDir = None →
     ∀ k, at_or_under baseDir k = true → files w' !! k = None).
Proof.
  intros Habs Hup baseDir zipPath.
  pose proof (upload_folder_name _ _ _ _ _ _ _ _ Hup) as Hname.
  assert (Hset : wants_directory baseDir = false)
    by (unfold baseDir; rewrite Hname; apply baseDir_settled).
  destruct (upload_folder_stages _ _ _ _ _ _ Hup) as (w1 & w2 & w3 & _ & _ & Harch & Hrm).
  fold baseDir zipPath in Harch, Hrm.
  apply createArchive_ok in Harch as [Harch _]. apply remove_caught in Hrm.
  rewrite node_key_settled in Hrm by done.
  split.
  - intros Hplain. eexists.
    destruct Hrm as [[Hrm _]|[-> _]]; [rewrite Hrm, fs_remove_lookup|];
      rewrite ?Harch; unfold baseDir, zipPath;
      rewrite ?zip_beside_folder by done; apply lookup_insert_eq.
  - intros Hok k Hk. destruct Hrm as [[Hrm _]|[_ [?|?]]]; [|done|congruence].
    by rewrite Hrm, fs_remove_lookup, Hk.
Qed.

Lemma join_dot p : abs_normal p → Path.join [p; "."] = p.
Proof.
  intros (bsegs & Hne & Hall & ->). rewrite join_segment by done.
  unfold Path.norm_step. rewrite decide_True by (by right).
  rewrite rev_involutive. by destruct bsegs.
Qed.

End FolderUpload.
(** X9.  After a folder upload that answers 200: if the folder has an
    ordinary name, its archive path holds a finalized archive; and if
    removing the folder did not fail, nothing is left at or below the
    folder. *)
Theorem upload_folder_outcome dirname env field fs now w w' folder :
  Path.isAbsolute dirname = true →
  upload dirname env field fs now w
    = (Ok {| status := 200; body := UploadedFolder folder |}, w') →
  (plain folder →
     ∃ entries,
       files w' !! Path.join [UPLOADS_DIR dirname; folder +:+ ".zip"]
         = Some (File (Zip true entries))) ∧
  (remove_error env (Path.join [UPLOADS_DIR dirname; folder]) = None →
     ∀ k, at_or_under (Path.join [UPLOADS_DIR dirname; folder]) k = true →
          files w' !! k = None).
Proof. intros Habs Hup. by apply (upload_folder_result dirname env field fs now w). Qed.

Lemma upload_folder_outcome_witness :
  ∃ w',
    upload "/srv/app" calm (PathsArray ["docs/a.txt"; "docs/sub/b.txt"])
      two_files 1700000000000 fresh_world
      = (Ok {| status := 200; body := UploadedFolder "docs" |}, w') ∧
    (plain "docs" →
       ∃ entries,
         files w' !! Path.join [UPLOADS_DIR "/srv/app"; "docs" +:+ ".zip"]
           = Some (File (Zip true entries))) ∧
    (remove_error calm (Path.join [UPLOADS_DIR "/srv/app"; "docs"]) = None →
       ∀ k, at_or_under (Path.join [UPLOADS_DIR "/srv/app"; "docs"]) k = true →
            files w' !! k = None).
Proof.
  eexists. split; [vm_compute; reflexivity|].
  apply (upload_folder_outcome "/srv/app" calm
           (PathsArray ["docs/a.txt"; "docs/sub/b.txt"]) two_files
           1700000000000%N fresh_world); [reflexivity|].
  vm_compute. reflexivity.
Defined.

(** X10.  The folder name taken from the first path is not checked: when
    it is a single dot (a first path such as [./a.txt]), the handler works
    in the uploads root itself, and after an upload that answers 200 with
    the removal not failing, nothing is left at or below the uploads
    root. *)
Theorem upload_dot_folder_empties_root dirname env field fs now w w' :
  Path.isAbsolute dirname = true →
  upload dirname env field fs now w
    = (Ok {| status := 200; body := UploadedFolder "." |}, w') →
  remove_error env (UPLOADS_DIR dirname) = None →
  ∀ k, at_or_under (UPLOADS_DIR dirname) k = true → files w' !! k = None.
Proof.
  intros Habs Hup Hrm.
  destruct (upload_folder_result dirname env _ _ _ _ _ _ Habs Hup) as [_ Hgone].
  rewrite join_dot in Hgone by by apply UPLOADS_DIR_normal. by apply Hgone.
Qed.

Lemma upload_dot_folder_empties_root_witness :
  ∃ w',
    upload "/srv/app" calm (PathsArray ["./a.txt"; "./b.txt"]) two_files 0 docs_world
      = (Ok {| status := 200; body := UploadedFolder "." |}, w') ∧
    ∀ k, at_or_under (UPLOADS_DIR "/srv/app") k = true → files w' !! k = None.
Proof.
  eexists. split; [vm_compute; reflexivity|].
  apply (upload_dot_folder_empties_root "/srv/app" calm
           (PathsArray ["./a.txt"; "./b.txt"]) two_files 0%N docs_world);
    [reflexivity | vm_compute; reflexivity | reflexivity].
Defined.

(** ** Downloads *)

(** C8.  The folder of a folder upload is fixed by the first non-empty
    path of the batch and the clock: its name is that path's first segment
    when the path contains a slash and the segment is not empty, and
    [upload_<timestamp>] otherwise.  Empty paths in front are passed over,
    and the paths after the first non-empty one play no part.  It is the
    folder of that name in the uploads root that the handler makes, writes
    the files into, archives and removes, and the name in its answer. *)
Theorem baseName_first_nonempty_path :
  (∀ paths now,
     baseName paths now =
       match filter (λ p, p ≠ "") paths with
       | first :: _ =>
           let root := hd "" (Str.split first) in
           if Str.includes_slash first && negb (bool_decide (root = ""))
           then root else "upload_" +:+ Str.of_N now
       | [] => "upload_" +:+ Str.of_N now
       end) ∧
  (∀ dirname env field fs now w w' folder,
     upload dirname env field fs now w
       = (Ok {| status := 200; body := UploadedFolder folder |}, w') →
     folder = baseName (paths_of field) now ∧
     let baseDir := Path.join [UPLOADS_DIR dirname; baseName (paths_of field) now] in
     let zipPath :=
       Path.join [UPLOADS_DIR dirname; baseName (paths_of field) now +:+ ".zip"] in
     ∃ writes tail,
       trace w' = trace w ++ EvMkdir baseDir :: writes
                    ++ EvArchiveClose zipPath baseDir :: tail ∧
       Forall (write_into baseDir) writes ∧
       (tail = [] ∨ tail = [EvRemove baseDir])).
Proof.
  split.
  - intros paths now. unfold baseName, rootFromPaths.
    destruct (filter _ paths) as [|first rest]; [reflexivity|].
    rewrite getRootName_first. cbn zeta.
    destruct (Str.includes_slash first); [|reflexivity]. cbn [andb].
    destruct (decide (hd "" (Str.split first) = "")) as [E|E].
    + by rewrite bool_decide_eq_true_2.
    + by rewrite bool_decide_eq_false_2.
  - intros dirname env field fs now w w' folder Hup.
    pose proof (upload_folder_name _ _ _ _ _ _ _ _ Hup) as Hname.
    split; [done|]. rewrite <- Hname.
    by apply (upload_folder_calls dirname env field fs now w).
Qed.

Lemma baseName_first_nonempty_path_witness :
  ∃ w', upload "/srv/app" calm (PathsArray ["docs/a.txt"; "docs/sub/b.txt"])
          two_files 1700000000000 fresh_world
          = (Ok {| status := 200; body := UploadedFolder "docs" |}, w') ∧
        "docs" = baseName ["docs/a.txt"; "docs/sub/b.txt"] 1700000000000 ∧
        ∃ writes tail,
          trace w' = trace fresh_world
                       ++ EvMkdir "/srv/app/uploads/docs" :: writes
                       ++ EvArchiveClose "/srv/app/uploads/docs.zip"
                            "/srv/app/uploads/docs" :: tail ∧
          Forall (write_into "/srv/app/uploads/docs") writes ∧
          (tail = [] ∨ tail = [EvRemove "/srv/app/uploads/docs"]).
Proof.
  eexists. split; [vm_compute; reflexivity|].
  pose proof (proj2 baseName_first_nonempty_path "/srv/app" calm
                (PathsArray ["docs/a.txt"; "docs/sub/b.txt"]) two_files
                1700000000000%N fresh_world) as H.
  apply H. vm_compute. reflexivity.
Defined.

(** C8, as stated, fails: two batches whose first entries are the same, with
    an empty first path, land in folders named after their second paths; and
    a first path with a slash but an empty first segment gives a generated
    name. *)
Lemma folder_name_from_later_path :
  (∃ w1, upload "/srv/app" calm (PathsArray [""; "x/b.txt"]) two_files 7 fresh_world
           = (Ok {| status := 200; body := UploadedFolder "x" |}, w1)) ∧
  (∃ w2, upload "/srv/app" calm (PathsArray [""; "y/b.txt"]) two_files 7 fresh_world
           = (Ok {| status := 200; body := UploadedFolder "y" |}, w2)) ∧
  (∃ w3, upload "/srv/app" calm (PathsArray ["/a.txt"; "/b.txt"]) two_files 7 fresh_world
           = (Ok {| status := 200; body := UploadedFolder "upload_7" |}, w3)).
Proof. repeat split; eexists; vm_compute; reflexivity. Qed.

(** ** The download routes *)

Section DownloadFacts.

Variable dirname : string.
Hypothesis dirname_absolute : Path.isAbsolute dirname = true.

Local Abbreviation U := (UPLOADS_DIR dirname).

Lemma safeJoin_name base n :
  abs_normal base → plain n → Str.startsWith n "\" = false →
  safeJoin base n = Ok (base +:+ "/" +:+ n).
Proof.
  intros Hbase Hn Hb.
  apply (safeJoin_ordinary base [n] 0); [done | done | by constructor | done].
Qed.






End DownloadFacts.





(** ** The root name of a batch *)

Lemma join_split s : Str.join (Str.split s) = s.
Proof.
  induction s as [|c s IH]; [reflexivity|]. simpl.
  destruct (Ascii.eqb c Str.slash) eqn:Hc.
  - apply Ascii.eqb_eq in Hc as ->. pose proof (split_nonempty s) as Hne.
    destruct (Str.split s) as [|x l] eqn:E; [done|].
    rewrite join_cons2, IH. reflexivity.
  - pose proof (split_nonempty s) as Hne.
    destruct (Str.split s) as [|seg rest] eqn:E; [done|].
    destruct rest as [|y rest].
    + simpl in IH |- *. by rewrite IH.
    + rewrite join_cons2 in IH |- *. rewrite sapp_cons. by rewrite IH.
Qed.

(** X13.  [getRootName] answers with a name exactly when the first path of
    the array contains a slash; the name is the part of that path before
    its first slash, and it contains no slash itself. *)
Theorem getRootName_is_first_segment paths r :
  getRootName paths = Some r ↔
  ∃ first rest tail,
    paths = first :: rest ∧ first = r +:+ "/" +:+ tail ∧
    Str.includes_slash r = false.
Proof.
  split.
  - destruct paths as [|first rest]; [discriminate|]. unfold getRootName.
    destruct (Str.split first) as [|root [|x l]] eqn:E; [discriminate..|].
    intros [= <-]. exists first, rest, (Str.join (x :: l)).
    split; [done|]. split.
    + rewrite <- (join_split first) at 1. by rewrite E.
    + pose proof (split_slash_free first) as Hall. rewrite E in Hall.
      by apply Forall_cons in Hall as [? _].
  - intros (first & rest & tail & -> & -> & Hr). unfold getRootName.
    change (r +:+ "/" +:+ tail) with (r +:+ String Str.slash tail).
    rewrite split_app_slash, split_no_slash by done.
    pose proof (split_nonempty tail). by destruct (Str.split tail).
Qed.

(** ** Sizes below the limit *)

(** ** More on [computeFolderSize] *)

Section MoreSizeFacts.

Import Inventory.

Implicit Types (items : list (string * entry)) (stack : list entry) (total : N).

Lemma scan_bound items stack total :
  (total + bytes_items items ≤ exact_range)%N →
  ((scan items stack total).2 + bytes_stack (scan items stack total).1
     ≤ total + bytes_items items + bytes_stack stack)%N.
Proof.
  revert stack total. induction items as [|[n it] items IH]; intros stack total Hex.
  { change (total + bytes_stack stack ≤ total + 0 + bytes_stack stack)%N. lia. }
  rewrite bytes_items_cons in Hex |- *.
  destruct it as [[sz|]|r its|]; cbn [scan].
  - cbn [bytes] in Hex |- *. rewrite add_exact by lia.
    specialize (IH stack (total + sz)%N). lia.
  - cbn [fst snd bytes]. lia.
  - specialize (IH (DirEnt r its :: stack) total). rewrite bytes_stack_cons in IH. lia.
  - specialize (IH stack total). cbn [bytes] in Hex |- *. lia.
Qed.

Lemma visit_bound current stack total :
  (total + bytes current ≤ exact_range)%N →
  ((visit current stack total).2 + bytes_stack (visit current stack total).1
     ≤ total + bytes current + bytes_stack stack)%N.
Proof.
  intros Hex. destruct current as [sz|[|] items|]; cbn [visit fst snd]; try lia.
  rewrite bytes_dir in Hex |- *. by apply scan_bound.
Qed.

Lemma loop_bound stack total :
  (total + bytes_stack stack ≤ exact_range)%N →
  (loop stack total ≤ total + bytes_stack stack)%N.
Proof.
  funelim (loop stack total); intros Hex.
  - lia.
  - rewrite bytes_stack_cons in Hex |- *.
    pose proof (visit_bound current stack total) as Hv.
    rewrite Hvisit in Hv. cbn [fst snd] in Hv.
    destruct (N.ltb limit total'); [lia|].
    match goal with IH : _ → (loop stack' total' ≤ _)%N |- _ => specialize (IH ltac:(lia)) end.
    lia.
Qed.

Lemma limit_exact : (limit ≤ exact_range)%N.
Proof. vm_compute. discriminate. Qed.

Lemma loop_exact stack total :
  Forall readable_dir stack →
  (total + bytes_stack stack ≤ limit)%N →
  loop stack total = (total + bytes_stack stack)%N.
Proof.
  pose proof limit_exact as Hlim.
  funelim (loop stack total); intros Hs Hle.
  - change (bytes_stack []) with 0%N. lia.
  - apply Forall_cons in Hs as [Hc Hs].
    rewrite bytes_stack_cons in Hle |- *.
    destruct (visit_readable current stack total Hc Hs) as [Hsum Hst]; [lia|].
    cbn zeta in Hsum, Hst. rewrite Hvisit in Hsum, Hst. cbn [fst snd] in Hsum, Hst.
    destruct (N.ltb limit total') eqn:Hlt.
    + apply N.ltb_lt in Hlt. lia.
    + match goal with
      | IH : _ → Forall readable_dir stack' → _ |- _ => rewrite IH; [lia | done | done | lia]
      end.
Qed.

End MoreSizeFacts.

(** X14.  [computeFolderSize] never reports more than there is, as long
    as the sizes add up to an exact number: on every tree, readable or not,
    whose files hold no more than 2^53 bytes together, the result is at
    most the sum of the sizes of the files in it. *)
Theorem computeFolderSize_never_overestimates dir :
  (Inventory.bytes dir ≤ exact_range)%N →
  (Inventory.computeFolderSize dir ≤ Inventory.bytes dir)%N.
Proof.
  intros Hex. unfold Inventory.computeFolderSize.
  pose proof (loop_bound [dir] 0%N) as H. rewrite bytes_stack_cons in H.
  change (Inventory.bytes_stack []) with 0%N in H. lia.
Qed.

Lemma computeFolderSize_never_overestimates_witness :
  (Inventory.computeFolderSize lopsided_tree ≤ Inventory.bytes lopsided_tree)%N.
Proof.
  apply (computeFolderSize_never_overestimates lopsided_tree). vm_compute. discriminate.
Defined.

(** X15.  Up to the limit the size is exact: on a directory tree in which
    everything can be read and whose files add up to at most 1e9 bytes,
    [computeFolderSize] returns that sum. *)
Theorem computeFolderSize_exact_within_limit dir :
  Inventory.readable_dir dir →
  (Inventory.bytes dir ≤ Inventory.limit)%N →
  Inventory.computeFolderSize dir = Inventory.bytes dir.
Proof.
  intros Hdir Hle. unfold Inventory.computeFolderSize.
  rewrite loop_exact; [|by constructor|].
  - rewrite bytes_stack_cons. change (Inventory.bytes_stack []) with 0%N. lia.
  - rewrite bytes_stack_cons. change (Inventory.bytes_stack []) with 0%N. lia.
Qed.

Lemma computeFolderSize_exact_within_limit_witness :
  Inventory.computeFolderSize small_tree = Inventory.bytes small_tree.
Proof.
  apply (computeFolderSize_exact_within_limit small_tree); vm_compute; [reflexivity|].
  discriminate.
Defined.

(** ** Deleting *)

Section DeleteFacts.

Variable dirname : string.
Variable env : Env.
Hypothesis dirname_absolute : Path.isAbsolute dirname = true.

Local Abbreviation U := (UPLOADS_DIR dirname).

Lemma deleteFolder_run name w :
  let folderPath := U +:+ "/" +:+ name in
  let zipPath := Path.join [U; name +:+ ".zip"] in
  plain name → Str.startsWith name "\" = false →
  remove_error env folderPath = None →
  remove_error env zipPath = None →
  ∃ w', deleteFolder dirname env name w = (Ok (Sent 200 "Deleted"), w') ∧
        (∀ k, at_or_under folderPath k = true → files w' !! k = None) ∧
        files w' !! zipPath = None ∧
        (∀ k, at_or_under folderPath k = false → at_or_under zipPath k = false →
              files w' !! k = files w !! k).
Proof.
  intros folderPath zipPath Hn Hb Hrf Hrz. unfold deleteFolder.
  rewrite safeJoin_name by (done || by apply UPLOADS_DIR_normal).
  fold folderPath zipPath.
  assert (Hside : at_or_under folderPath zipPath = false).
  { unfold folderPath, zipPath. rewrite <- (child_path dirname) by done.
    by apply zip_beside_folder. }
  assert (Hsf : wants_directory folderPath = false) by by apply child_settled.
  pose proof (zip_path_settled dirname name) as Hsz. fold zipPath in Hsz.
  cbv [try_catch lift ret bind pathExists get_files].
  rewrite remove_succeeds by done. cbn [files].
  rewrite fs_at_settled by done.
  destruct (bool_decide (is_Some (fs_remove folderPath (files w) !! zipPath))) eqn:Hz.
  - rewrite remove_succeeds by done.
    eexists. split; [reflexivity|]. cbn [files]. split; [|split].
    + intros k Hk. rewrite !fs_remove_lookup, Hk. by destruct (at_or_under zipPath k).
    + by rewrite fs_remove_lookup, at_or_under_self.
    + intros k Hk Hkz. by rewrite !fs_remove_lookup, Hk, Hkz.
  - apply bool_decide_eq_false in Hz.
    eexists. split; [reflexivity|]. cbn [files]. split; [|split].
    + intros k Hk. by rewrite fs_remove_lookup, Hk.
    + destruct (fs_remove folderPath (files w) !! zipPath) eqn:E; [|done].
      exfalso. apply Hz. by eexists.
    + intros k Hk _. by rewrite fs_remove_lookup, Hk.
Qed.

(** The files after the loop of [deleteAll], when no removal fails. *)
Lemma purge_run names w :
  (∀ p, remove_error env p = None) →
  Forall plain names →
  ∃ w', purge dirname env names w = (Ok tt, w') ∧
        ∀ k, files w' !! k =
               if existsb (λ n, at_or_under (Path.join [U; n]) k) names
               then None else files w !! k.
Proof.
  intros Hrm Hall. revert w. induction Hall as [|n names Hn Hall IH]; intros w.
  { exists w. by split. }
  cbn [purge]. unfold bind at 1.
  rewrite remove_succeeds by (done || by apply folder_settled).
  destruct (IH {| files := fs_remove (Path.join [U; n]) (files w);
                  trace := trace w ++ [EvRemove (Path.join [U; n])] |})
    as (w' & Hrun & Hlook).
  exists w'. split; [done|]. intros k. rewrite Hlook. cbn [files existsb].
  rewrite fs_remove_lookup.
  destruct (at_or_under (Path.join [U; n]) k); cbn [orb]; [|done].
  by destruct (existsb _ names).
Qed.

Lemma listing_complete dir (fs : FS) n nd :
  fs !! (dir +:+ "/" +:+ n) = Some nd → n ≠ "" → Str.includes_slash n = false →
  ∃ ent, ent ∈ listing dir fs ∧ name ent = n.
Proof.
  intros Hk Hne Hs. exists {| name := n; isDirectory := is_directory (Some nd) |}.
  split; [|done]. apply elem_of_listing, list_elem_of_omap.
  exists (dir +:+ "/" +:+ n, nd). split; [by apply elem_of_map_to_list|].
  unfold child_of. cbn [fst snd].
  rewrite <- sapp_assoc, startsWith_app.
  replace (String.length dir + 1) with (String.length (dir +:+ "/"))
    by (rewrite slength_app; reflexivity).
  rewrite drop_app, Hs. by rewrite bool_decide_eq_false_2.
Qed.

Lemma under_child_under_root n k :
  at_or_under (U +:+ "/" +:+ n) k = true → at_or_under U k = true.
Proof.
  intros (x & Hx & ->)%at_or_under_spec. apply at_or_under_spec.
  exists ("/" +:+ n +:+ x). split; [right; by eexists | by rewrite !sapp_assoc].
Qed.

Lemma root_not_under_child n : at_or_under (U +:+ "/" +:+ n) U = false.
Proof.
  apply not_true_is_false. intros (x & _ & Heq)%at_or_under_spec.
  apply (f_equal String.length) in Heq. rewrite !slength_app in Heq. simpl in Heq. lia.
Qed.

Lemma deleteAll_run w :
  files w !! U = Some Dir →
  (∀ p, remove_error env p = None) →
  (∀ ent, ent ∈ listing U (files w) → plain (name ent)) →
  ∃ w', deleteAll dirname env w = (Ok (Sent 200 "All deleted"), w') ∧
        listing U (files w') = [] ∧
        files w' !! U = Some Dir ∧
        ∀ k, at_or_under U k = false → files w' !! k = files w !! k.
Proof.
  intros Hroot Hrm Hplain. unfold deleteAll, try_catch, readdir, get_files.
  unfold bind at 1. cbn beta iota. unfold bind at 1. cbn beta iota.
  rewrite fs_at_settled, Hroot by apply UPLOADS_DIR_settled.
  cbn [is_directory]. unfold ret at 1. cbn beta iota.
  rewrite node_key_settled by apply UPLOADS_DIR_settled.
  unfold bind at 1.
  assert (Hnames : ∀ n, In n (map name (listing U (files w))) → plain n).
  { intros n (ent & <- & Hent)%in_map_iff. apply Hplain. by apply list_elem_of_In. }
  destruct (purge_run (map name (listing U (files w))) w Hrm) as (w' & Hrun & Hlook).
  { apply Forall_forall. intros n Hn. by apply Hnames, list_elem_of_In. }
  rewrite Hrun. unfold ret. exists w'. split; [done|].
  assert (Hmiss : ∀ k, (∀ n, plain n → at_or_under (U +:+ "/" +:+ n) k = false) →
            files w' !! k = files w !! k).
  { intros k Hk. rewrite Hlook.
    destruct (existsb _ _) eqn:E; [|done].
    apply existsb_exists in E as (n & Hin & Hu).
    rewrite child_path in Hu by (done || by apply Hnames).
    rewrite Hk in Hu by by apply Hnames. done. }
  split; [|split].
  - destruct (listing U (files w')) as [|ent l] eqn:El; [done|]. exfalso.
    assert (Hent : ent ∈ listing U (files w')) by (rewrite El; by left).
    apply listing_names in Hent as (Hne & Hs & nd & Hk & _).
    rewrite Hlook in Hk.
    destruct (existsb _ _) eqn:E; [done|].
    destruct (listing_complete _ _ _ _ Hk Hne Hs) as (ent0 & Hent0 & Hname).
    assert (Hin : In (name ent) (map name (listing U (files w)))).
    { rewrite <- Hname. apply in_map. by apply list_elem_of_In. }
    assert (existsb (λ n, at_or_under (Path.join [U; n]) (U +:+ "/" +:+ name ent))
              (map name (listing U (files w))) = true); [|congruence].
    apply existsb_exists. exists (name ent). split; [done|].
    rewrite child_path by (done || by apply Hnames). apply at_or_under_self.
  - rewrite Hmiss; [done|]. intros n _. apply root_not_under_child.
  - intros k Hk. apply Hmiss. intros n _. apply not_true_is_false.
    intros Hu%under_child_under_root. congruence.
Qed.

End DeleteFacts.

(** X16.  For an ordinary folder name that does not start with a
    backslash, with no removal failing, [deleteFolder] answers 200: nothing
    is left at or below the folder, nothing is left at the folder's archive
    path, and every path outside the two is untouched. *)
Theorem deleteFolder_removes_folder_and_archive dirname env name w :
  let folderPath := UPLOADS_DIR dirname +:+ "/" +:+ name in
  let zipPath := Path.join [UPLOADS_DIR dirname; name +:+ ".zip"] in
  Path.isAbsolute dirname = true →
  plain name → Str.startsWith name "\" = false →
  remove_error env folderPath = None →
  remove_error env zipPath = None →
  ∃ w', deleteFolder dirname env name w = (Ok (Sent 200 "Deleted"), w') ∧
        (∀ k, at_or_under folderPath k = true → files w' !! k = None) ∧
        files w' !! zipPath = None ∧
        (∀ k, at_or_under folderPath k = false → at_or_under zipPath k = false →
              files w' !! k = files w !! k).
Proof. intros ? ? Habs. by apply deleteFolder_run. Qed.

Lemma deleteFolder_removes_folder_and_archive_witness :
  ∃ w', deleteFolder "/srv/app" calm "docs" archived_world
          = (Ok (Sent 200 "Deleted"), w') ∧
        (∀ k, at_or_under (UPLOADS_DIR "/srv/app" +:+ "/" +:+ "docs") k = true →
              files w' !! k = None) ∧
        files w' !! Path.join [UPLOADS_DIR "/srv/app"; "docs" +:+ ".zip"] = None ∧
        (∀ k, at_or_under (UPLOADS_DIR "/srv/app" +:+ "/" +:+ "docs") k = false →
              at_or_under (Path.join [UPLOADS_DIR "/srv/app"; "docs" +:+ ".zip"]) k = false →
              files w' !! k = files archived_world !! k).
Proof.
  pose proof (deleteFolder_removes_folder_and_archive "/srv/app" calm "docs"
                archived_world) as H.
  cbv zeta in H. apply H; [reflexivity | repeat split; done | reflexivity..].
Defined.

(** X17.  When the uploads root can be listed, its entries have ordinary
    names and no removal fails, [deleteAll] answers 200 and leaves the
    uploads root in place and empty, without touching any path outside
    it. *)
Theorem deleteAll_empties_root dirname env w :
  Path.isAbsolute dirname = true →
  files w !! UPLOADS_DIR dirname = Some Dir →
  (∀ p, remove_error env p = None) →
  (∀ ent, ent ∈ listing (UPLOADS_DIR dirname) (files w) → plain (name ent)) →
  ∃ w', deleteAll dirname env w = (Ok (Sent 200 "All deleted"), w') ∧
        listing (UPLOADS_DIR dirname) (files w') = [] ∧
        files w' !! UPLOADS_DIR dirname = Some Dir ∧
        ∀ k, at_or_under (UPLOADS_DIR dirname) k = false →
             files w' !! k = files w !! k.
Proof. intros. by apply deleteAll_run. Qed.

Lemma deleteAll_empties_root_witness :
  ∃ w', deleteAll "/srv/app" calm locked_world = (Ok (Sent 200 "All deleted"), w') ∧
        listing (UPLOADS_DIR "/srv/app") (files w') = [] ∧
        files w' !! UPLOADS_DIR "/srv/app" = Some Dir ∧
        ∀ k, at_or_under (UPLOADS_DIR "/srv/app") k = false →
             files w' !! k = files locked_world !! k.
Proof.
  pose proof (deleteAll_empties_root "/srv/app" calm locked_world) as H.
  apply H; [reflexivity | vm_compute; reflexivity | reflexivity |].
  assert (Hl : listing (UPLOADS_DIR "/srv/app") (files locked_world)
                 = [ {| name := "docs"; isDirectory := true |};
                     {| name := "docs.uploading"; isDirectory := false |};
                     {| name := "old"; isDirectory := true |} ])
    by (vm_compute; reflexivity).
  clear H. rewrite Hl. intros ent Hent.
  repeat (apply elem_of_cons in Hent as [->|Hent]; [repeat split; done|]).
  apply elem_of_nil in Hent. destruct Hent.
Defined.

Lemma deleteFile_run dirname env name w :
  Path.isAbsolute dirname = true →
  plain name → Str.startsWith name "\" = false →
  remove_error env (UPLOADS_DIR dirname +:+ "/" +:+ name) = None →
  deleteFile dirname env name w
    = (Ok {| status := 200; body := Deleted |},
       {| files := fs_remove (UPLOADS_DIR dirname +:+ "/" +:+ name) (files w);
          trace := trace w ++ [EvRemove (UPLOADS_DIR dirname +:+ "/" +:+ name)] |}).
Proof.
  intros Habs Hn Hb Hrm. unfold deleteFile.
  rewrite safeJoin_name by (done || by apply UPLOADS_DIR_normal).
  cbv [try_catch lift ret bind]. by rewrite remove_succeeds by (done || by apply child_settled).
Qed.

(** X18.  For an ordinary name that does not start with a backslash, with
    the removal not failing, [deleteFile] answers 200 and removes the entry
    of that name in the uploads root with everything below it; every other
    path is untouched. *)
Theorem deleteFile_removes_entry dirname env name w :
  Path.isAbsolute dirname = true →
  plain name → Str.startsWith name "\" = false →
  remove_error env (UPLOADS_DIR dirname +:+ "/" +:+ name) = None →
  ∃ w', deleteFile dirname env name w = (Ok {| status := 200; body := Deleted |}, w') ∧
        (∀ k, at_or_under (UPLOADS_DIR dirname +:+ "/" +:+ name) k = true →
              files w' !! k = None) ∧
        (∀ k, at_or_under (UPLOADS_DIR dirname +:+ "/" +:+ name) k = false →
              files w' !! k = files w !! k).
Proof.
  intros Habs Hn Hb Hrm. eexists. split; [by apply deleteFile_run|].
  cbn [files]. split; intros k Hk; by rewrite fs_remove_lookup, Hk.
Qed.

Lemma deleteFile_removes_entry_witness :
  ∃ w', deleteFile "/srv/app" calm "docs.zip" archived_world
          = (Ok {| status := 200; body := Deleted |}, w') ∧
        (∀ k, at_or_under (UPLOADS_DIR "/srv/app" +:+ "/" +:+ "docs.zip") k = true →
              files w' !! k = None) ∧
        (∀ k, at_or_under (UPLOADS_DIR "/srv/app" +:+ "/" +:+ "docs.zip") k = false →
              files w' !! k = files archived_world !! k).
Proof.
  pose proof (deleteFile_removes_entry "/srv/app" calm "docs.zip" archived_world) as H.
  apply H; [reflexivity | repeat split; done | reflexivity..].
Defined.

(** ** What a folder upload archives *)

Section RoundTrip.

Variable dirname : string.
Variable env : Env.
Hypothesis dirname_absolute : Path.isAbsolute dirname = true.

Local Abbreviation U := (UPLOADS_DIR dirname).






End RoundTrip.



(** ** A sweep in which nothing fails *)

Section CleanSweep.

Variable dirname : string.
Variable env : Env.
Hypothesis dirname_absolute : Path.isAbsolute dirname = true.
Hypothesis archives_close : ∀ p, archive_of env p = Closes.
Hypothesis removals_succeed : ∀ p, remove_error env p = None.

Local Abbreviation U := (UPLOADS_DIR dirname).

(** One call in an environment where nothing fails: the folder is no
    longer a directory afterwards, no directory is new, and the only path
    that may be new is the archive. *)
Lemma compactDirectory_clean d w :
  plain d →
  ∃ o w1, compactDirectory dirname env d w = (Ok o, w1) ∧
    is_directory (files w1 !! (U +:+ "/" +:+ d)) = false ∧
    (∀ k, is_directory (files w1 !! k) = true → is_directory (files w !! k) = true) ∧
    (∀ k, is_Some (files w1 !! k) →
          is_Some (files w !! k) ∨ k = U +:+ "/" +:+ d +:+ ".zip").
Proof.
  intros Hd.
  assert (Hz : plain (d +:+ ".zip")).
  { apply plain_suffix; [by destruct Hd as (_ & _ & _ & ?) | done | simpl; lia]. }
  pose proof (child_path dirname dirname_absolute d Hd) as Hfolder.
  pose proof (child_path dirname dirname_absolute _ Hz) as Hzip.
  destruct (is_directory (files w !! Path.join [U; d])) eqn:Hdir.
  - assert (Hf : files w !! Path.join [U; d] = Some Dir).
    { by destruct (files w !! Path.join [U; d]) as [[c|]|]. }
    destruct (files w !! Path.join [U; d +:+ ".zip"]) as [nd|] eqn:Hzf.
    + destruct (compactDirectory_reclaims_run dirname env dirname_absolute d w nd
                  Hd Hf Hzf (removals_succeed _)) as (w1 & Hrun & _ & Hgone & Hkeep & _).
      exists (Removed d true), w1. split; [done|]. rewrite <- Hfolder.
      split; [by rewrite Hgone by apply at_or_under_self|].
      split; intros k Hk; destruct (at_or_under (Path.join [U; d]) k) eqn:Hu.
      * by rewrite Hgone in Hk.
      * by rewrite Hkeep in Hk.
      * rewrite Hgone in Hk by done. by destruct Hk.
      * left. by rewrite Hkeep in Hk.
    + destruct (compactDirectory_compacts_run dirname env dirname_absolute d w
                  Hd Hf Hzf (archives_close _) (removals_succeed _))
        as (w1 & Hrun & Hnew & Hgone & Hkeep & _).
      exists (Compacted d), w1. split; [done|]. rewrite <- Hfolder.
      split; [by rewrite Hgone by apply at_or_under_self|].
      split; intros k Hk; destruct (at_or_under (Path.join [U; d]) k) eqn:Hu.
      * by rewrite Hgone in Hk.
      * destruct (decide (k = Path.join [U; d +:+ ".zip"])) as [->|Hne];
          [by rewrite Hnew in Hk | by rewrite Hkeep in Hk].
      * rewrite Hgone in Hk by done. by destruct Hk.
      * destruct (decide (k = Path.join [U; d +:+ ".zip"])) as [->|Hne];
          [by right | left; by rewrite Hkeep in Hk].
  - exists (Skipped d "not-directory"), w.
    split; [apply compactDirectory_skips;
            by rewrite fs_at_settled by by apply folder_settled|].
    rewrite <- Hfolder.
    split; [done|]. split; [done|]. intros k Hk. by left.
Qed.

(** A lock marker is never the archive of a folder. *)
Lemma lock_not_archive a d :
  U +:+ "/" +:+ a +:+ ".uploading" ≠ U +:+ "/" +:+ d +:+ ".zip".
Proof.
  intros E. apply (f_equal Str.last_char) in E.
  rewrite <- !sapp_assoc in E. by rewrite !last_char_app in E.
Qed.

Lemma visible_plain n :
  n ≠ "" → Str.includes_slash n = false → Str.startsWith n "." = false → plain n.
Proof.
  intros Hne Hs Hdot. repeat split; [done|..|done]; intros ->; discriminate.
Qed.

Lemma sweep_clean entries results w :
  Forall (λ ent, name ent ≠ "" ∧ Str.includes_slash (name ent) = false) entries →
  ∃ out w', sweep dirname env entries results w = (Ok out, w') ∧
    (∀ k, is_directory (files w' !! k) = true → is_directory (files w !! k) = true) ∧
    (∀ a, is_Some (files w' !! (U +:+ "/" +:+ a +:+ ".uploading")) →
          is_Some (files w !! (U +:+ "/" +:+ a +:+ ".uploading"))) ∧
    (∀ ent, ent ∈ entries → isDirectory ent = true →
            Str.startsWith (name ent) "." = false →
            files w !! (U +:+ "/" +:+ name ent +:+ ".uploading") = None →
            is_directory (files w' !! (U +:+ "/" +:+ name ent)) = false).
Proof.
  intros Hall. revert results w.
  induction Hall as [|ent entries [Hne Hs] Hall IH]; intros results w.
  { exists results, w. split; [done|]. split; [done|]. split; [done|].
    by intros ? ?%elem_of_nil. }
  cbn [sweep].
  destruct (isDirectory ent) eqn:Hdir; [|].
  2: { destruct (IH results w) as (out & w' & Hrun & H1 & H2 & H3).
       exists out, w'. split; [done|]. split; [done|]. split; [done|].
       intros e [->|He]%elem_of_cons; [congruence | by apply H3]. }
  destruct (Str.startsWith (name ent) ".") eqn:Hdot.
  { destruct (IH results w) as (out & w' & Hrun & H1 & H2 & H3).
    exists out, w'. split; [done|]. split; [done|]. split; [done|].
    intros e [->|He]%elem_of_cons; [congruence | by apply H3]. }
  pose proof (visible_plain _ Hne Hs Hdot) as Hd.
  assert (Hl : plain (name ent +:+ ".uploading")).
  { apply plain_suffix; [done | done | simpl; lia]. }
  rewrite (child_path dirname dirname_absolute _ Hl).
  unfold bind at 1. unfold pathExists, bind, get_files, ret.
  rewrite fs_at_settled by by apply child_settled.
  destruct (bool_decide (is_Some (files w !! (U +:+ "/" +:+ name ent +:+ ".uploading"))))
    eqn:Hlock.
  { apply bool_decide_eq_true in Hlock.
    destruct (IH results w) as (out & w' & Hrun & H1 & H2 & H3).
    exists out, w'. split; [done|]. split; [done|]. split; [done|].
    intros e [->|He]%elem_of_cons; [|by apply H3].
    intros _ _ Hnone. rewrite Hnone in Hlock. by destruct Hlock. }
  destruct (compactDirectory_clean (name ent) w Hd) as (o & w1 & Hrun1 & Hgone & Hd1 & Hs1).
  rewrite Hrun1.
  destruct (IH (results ++ [o]) w1) as (out & w' & Hrun & H1 & H2 & H3).
  assert (Hlocks : ∀ a, is_Some (files w1 !! (U +:+ "/" +:+ a +:+ ".uploading")) →
                        is_Some (files w !! (U +:+ "/" +:+ a +:+ ".uploading"))).
  { intros a Ha. destruct (Hs1 _ Ha) as [?|E]; [done|]. by apply lock_not_archive in E. }
  exists out, w'. split; [done|]. split; [|split].
  - intros k Hk. by apply Hd1, H1.
  - intros a Ha. by apply Hlocks, H2.
  - intros e [->|He]%elem_of_cons Hde Hdote Hnone.
    + destruct (is_directory (files w' !! (U +:+ "/" +:+ name ent))) eqn:Hstill; [|done].
      apply H1 in Hstill. congruence.
    + apply H3; [done..|].
      destruct (files w1 !! (U +:+ "/" +:+ name e +:+ ".uploading")) as [nd|] eqn:Hl1; [|done].
      destruct (Hlocks (name e)) as [nd' Hnd']; [by rewrite Hl1|]. congruence.
Qed.

Lemma listing_complete_entry dir (fs : FS) n nd :
  fs !! (dir +:+ "/" +:+ n) = Some nd → n ≠ "" → Str.includes_slash n = false →
  {| name := n; isDirectory := is_directory (Some nd) |} ∈ listing dir fs.
Proof.
  intros Hk Hne Hs. apply elem_of_listing, list_elem_of_omap.
  exists (dir +:+ "/" +:+ n, nd). split; [by apply elem_of_map_to_list|].
  unfold child_of. cbn [fst snd].
  rewrite <- sapp_assoc, startsWith_app.
  replace (String.length dir + 1) with (String.length (dir +:+ "/"))
    by (rewrite slength_app; reflexivity).
  rewrite drop_app, Hs. by rewrite bool_decide_eq_false_2.
Qed.

Lemma compactAll_clean w :
  files w !! U = Some Dir →
  ∃ results w', compactAll dirname env w = (Ok results, w') ∧
    ∀ ent, ent ∈ listing U (files w') → isDirectory ent = true →
      Str.startsWith (name ent) "." = true ∨
      is_Some (files w !! Path.join [U; name ent +:+ ".uploading"]).
Proof.
  intros Hroot. unfold compactAll, readdir, get_files.
  unfold bind at 1. cbn beta iota. unfold bind at 1. cbn beta iota.
  rewrite fs_at_settled, Hroot by apply UPLOADS_DIR_settled.
  cbn [is_directory]. unfold ret at 1. cbn beta iota.
  rewrite node_key_settled by apply UPLOADS_DIR_settled.
  destruct (sweep_clean (listing U (files w)) [] w) as (out & w' & Hrun & H1 & _ & H3).
  { apply Forall_forall. intros ent (? & ? & _)%listing_names. by split. }
  exists out, w'. split; [done|].
  intros ent Hent Hdir.
  apply listing_names in Hent as (Hne & Hs & nd & Hk & Hnd).
  destruct (Str.startsWith (name ent) ".") eqn:Hdot; [by left | right].
  assert (Hl : plain (name ent +:+ ".uploading")).
  { apply plain_suffix; [done | done | simpl; lia]. }
  rewrite (child_path dirname dirname_absolute _ Hl).
  destruct (files w !! (U +:+ "/" +:+ name ent +:+ ".uploading")) as [l|] eqn:Hlock;
    [by eexists|]. exfalso.
  assert (Hnow : is_directory (files w' !! (U +:+ "/" +:+ name ent)) = true)
    by (rewrite Hk; congruence).
  pose proof (H1 _ Hnow) as Hwas.
  destruct (files w !! (U +:+ "/" +:+ name ent)) as [[c|]|] eqn:Hold; try done.
  pose proof (listing_complete_entry _ _ _ _ Hold Hne Hs) as Hin.
  specialize (H3 _ Hin eq_refl Hdot Hlock). cbn [name] in H3. congruence.
Qed.

End CleanSweep.

(** X20.  A sweep in which nothing fails leaves no folder to compact: when
    every archive closes and every removal succeeds, [compactAll] returns,
    and each directory then listed in the uploads root is hidden (its name
    starts with a dot) or had its [.uploading] lock marker present when
    the sweep began. *)
Theorem compactAll_leaves_no_folder dirname env w :
  Path.isAbsolute dirname = true →
  (∀ p, archive_of env p = Closes) →
  (∀ p, remove_error env p = None) →
  files w !! UPLOADS_DIR dirname = Some Dir →
  ∃ results w', compactAll dirname env w = (Ok results, w') ∧
    ∀ ent, ent ∈ listing (UPLOADS_DIR dirname) (files w') → isDirectory ent = true →
      Str.startsWith (name ent) "." = true ∨
      is_Some (files w !! Path.join [UPLOADS_DIR dirname; name ent +:+ ".uploading"]).
Proof. intros. by apply compactAll_clean. Qed.

Lemma compactAll_leaves_no_folder_witness :
  ∃ results w', compactAll "/srv/app" calm locked_world = (Ok results, w') ∧
    ∀ ent, ent ∈ listing (UPLOADS_DIR "/srv/app") (files w') → isDirectory ent = true →
      Str.startsWith (name ent) "." = true ∨
      is_Some (files locked_world
                 !! Path.join [UPLOADS_DIR "/srv/app"; name ent +:+ ".uploading"]).
Proof.
  pose proof (compactAll_leaves_no_folder "/srv/app" calm locked_world) as H.
  apply H; [reflexivity | done | done | vm_compute; reflexivity].
Defined.
